(** * The influx shell: identifier parser and result formatter

    A shallow embedding of [cmd/influx/cli/cli.go]: the identifier parser
    behind [INSERT INTO <db>.<rp> <point>] and the formatter that turns a
    query response into json, csv or column text.

    Go strings are byte sequences; they are modelled by [string], whose
    characters ([ascii]) are bytes.  The parser's predicates single out
    bytes below 128 only (letters, digits, underscore, whitespace,
    backslash, double quote) and treat every other byte alike, and each
    byte of a multi-byte UTF-8 sequence is above 127; so scanning byte by
    byte finds the same fields as scanning rune by rune and leaves the
    captured flag of the quoted scanner the same. *)

From Stdlib Require Import ZArith Ascii String DecimalString.
From Stdlib Require DecimalPos DecimalZ.
From stdpp Require Import base strings list gmap sorting.

(** ** Characters *)

Module Char.
Definition tab : ascii := "009"%char.
Definition newline : ascii := "010"%char.
Definition space : ascii := "032"%char.
Definition dquote : ascii := "034"%char.
Definition backslash : ascii := "092"%char.
Definition underscore : ascii := "095"%char.
Definition minus : ascii := "045"%char.

(** [ch >= lo && ch <= hi] on bytes. *)
Definition between (lo hi ch : ascii) : bool :=
  Ascii.leb lo ch && Ascii.leb ch hi.
End Char.

(** isWhitespace returns true if the rune is a space, tab, or newline. *)
Definition isWhitespace (ch : ascii) : bool :=
  Ascii.eqb ch Char.space || Ascii.eqb ch Char.tab || Ascii.eqb ch Char.newline.

(** isLetter returns true if the rune is a letter. *)
Definition isLetter (ch : ascii) : bool :=
  Char.between "a" "z" ch || Char.between "A" "Z" ch.

(** isDigit returns true if the rune is a digit. *)
Definition isDigit (ch : ascii) : bool := Char.between "0" "9" ch.

(** isIdentFirstChar: the rune can start an unquoted identifier. *)
Definition isIdentFirstChar (ch : ascii) : bool :=
  isLetter ch || Ascii.eqb ch Char.underscore.

(** isNotIdentChar: the rune cannot occur in an unquoted identifier. *)
Definition isNotIdentChar (ch : ascii) : bool :=
  negb (isLetter ch || isDigit ch || Ascii.eqb ch Char.underscore).

(** ** The pieces of package [strings] the parser calls *)

Module GoStrings.
(** [s[len(prefix):]] when [prefix] starts [s]. *)
Fixpoint cutPrefix (prefix s : string) : option string :=
  match prefix, s with
  | "", _ => Some s
  | String p prefix', String c s' =>
      if Ascii.eqb p c then cutPrefix prefix' s' else None
  | String _ _, "" => None
  end.

(** [strings.HasPrefix]. *)
Definition HasPrefix (s prefix : string) : bool :=
  match cutPrefix prefix s with
  | Some _ => true
  | None => false
  end.

(** [strings.TrimPrefix]: [s] without the leading [prefix], and [s]
    itself when it does not start with [prefix]. *)
Definition TrimPrefix (s prefix : string) : string :=
  match cutPrefix prefix s with
  | Some rest => rest
  | None => s
  end.

(** [s[1:]] at the places where the code has checked [len(s) > 0]. *)
Definition tail (s : string) : string :=
  match s with
  | "" => ""
  | String _ s' => s'
  end.

(** [strings.FieldsFunc] as the Go standard library implements it: one
    pass from left to right, the predicate called once on each character
    in turn; a field starts at the first character the predicate rejects
    and ends before the next one it accepts.  The predicate may be a
    closure over mutable state, as in [parseDoubleQuotedIdentifier]; the
    captured state is threaded explicitly as [st].  [cur] is the field
    under construction ([start >= 0] in the library). *)
Section FieldsFunc.
Context {St : Type} (f : St → ascii → bool * St).

Definition grow (cur : option string) (ch : ascii) : string :=
  match cur with
  | Some w => w +:+ String ch ""
  | None => String ch ""
  end.

Definition close (cur : option string) : list string :=
  match cur with
  | Some w => [w]
  | None => []
  end.

Fixpoint scanFields (st : St) (cur : option string) (s : string)
  : list string :=
  match s with
  | "" => close cur
  | String ch s' =>
      let '(sep, st') := f st ch in
      if sep then close cur ++ scanFields st' None s'
      else scanFields st' (Some (grow cur ch)) s'
  end.

Definition FieldsFunc (st : St) (s : string) : list string :=
  scanFields st None s.

(** Does the predicate report a separator somewhere in [s], and the
    captured state once [s] has been scanned. *)
Fixpoint separates (st : St) (s : string) : bool :=
  match s with
  | "" => false
  | String ch s' => let '(sep, st') := f st ch in sep || separates st' s'
  end.

Fixpoint stateAfter (st : St) (s : string) : St :=
  match s with
  | "" => st
  | String ch s' => stateAfter (f st ch).2 s'
  end.
End FieldsFunc.

(** [strings.Split] at a one-byte separator, which is how [writeCSV]
    calls it. *)
Fixpoint Split (s : string) (sep : ascii) : list string :=
  match s with
  | "" => [""]
  | String ch s' =>
      if Ascii.eqb ch sep then "" :: Split s' sep
      else match Split s' sep with
           | w :: ws => String ch w :: ws
           | [] => [String ch ""]
           end
  end.

(** [strings.Repeat] and [strings.Join]. *)
Fixpoint Repeat (s : string) (count : nat) : string :=
  match count with
  | O => ""
  | S n => s +:+ Repeat s n
  end.

Fixpoint Join (elems : list string) (sep : string) : string :=
  match elems with
  | [] => ""
  | [e] => e
  | e :: rest => e +:+ sep +:+ Join rest sep
  end.
End GoStrings.

(** ** The identifier parser *)

(** A predicate without captured state. *)
Definition stateless (p : ascii → bool) (st : unit) (ch : ascii)
  : bool * unit := (p ch, st).

Definition parseUnquotedIdentifier (stmt : string) : string * string :=
  match GoStrings.FieldsFunc (stateless isNotIdentChar) tt stmt with
  | field0 :: _ => (field0, GoStrings.TrimPrefix stmt field0)
  | [] => ("", stmt)
  end.

(** The closure handed to [FieldsFunc] by [parseDoubleQuotedIdentifier];
    its captured variable [escapeNext] is the state.  A backslash sets the
    flag; only a double quote seen while the flag is set clears it. *)
Definition quoteSeparator (escapeNext : bool) (ch : ascii) : bool * bool :=
  if Ascii.eqb ch Char.backslash then (false, true)
  else if Ascii.eqb ch Char.dquote then
         if negb escapeNext then (true, escapeNext) else (false, false)
       else (false, escapeNext).

(** [s] between two double quotes, the prefix [parseDoubleQuotedIdentifier]
    trims. *)
Definition quoted (s : string) : string :=
  String Char.dquote (s +:+ String Char.dquote "").

Definition parseDoubleQuotedIdentifier (stmt : string) : string * string :=
  match GoStrings.FieldsFunc quoteSeparator false stmt with
  | field0 :: _ => (field0, GoStrings.TrimPrefix stmt (quoted field0))
  | [] => ("", stmt)
  end.

Fixpoint parseNextIdentifier (stmt : string) : string * string :=
  match stmt with
  | String ch rest =>
      if isWhitespace ch then parseNextIdentifier rest
      else if isIdentFirstChar ch then parseUnquotedIdentifier stmt
      else if Ascii.eqb ch Char.dquote then parseDoubleQuotedIdentifier stmt
      else ("", stmt)
  | "" => ("", stmt)
  end.

(** The same recursion with the depth of the Go call stack made explicit:
    every call, the outermost included, costs one unit of [fuel]. *)
Fixpoint parseNextIdentifierDepth (fuel : nat) (stmt : string)
  : option (string * string) :=
  match fuel with
  | O => None
  | S fuel' =>
      match stmt with
      | String ch rest =>
          if isWhitespace ch then parseNextIdentifierDepth fuel' rest
          else if isIdentFirstChar ch then Some (parseUnquotedIdentifier stmt)
          else if Ascii.eqb ch Char.dquote
               then Some (parseDoubleQuotedIdentifier stmt)
               else Some ("", stmt)
      | "" => Some ("", stmt)
      end
  end.

(** The leading whitespace the recursion drops. *)
Fixpoint skipWhitespace (stmt : string) : string :=
  match stmt with
  | String ch rest => if isWhitespace ch then skipWhitespace rest else stmt
  | "" => ""
  end.


(** ** The shell's state *)

(** The data fields of [CommandLine]; the client, the line editor, the
    channels and the history file are handles the modelled functions never
    touch. *)
Record CommandLine := mkCommandLine {
  Host : string;
  Port : Z;
  Username : string;
  Password : string;
  Database : string;
  Ssl : bool;
  RetentionPolicy : string;
  ClientVersion : string;
  ServerVersion : string;
  Pretty : bool;
  Format : string;
  Precision : string;
  WriteConsistency : string;
  Execute : string;
  ShowVersion : bool;
  Import : bool;
  PPS : Z;
  Path : string;
  Compressed : bool
}.

(** [New]: every field but the client version has its zero value. *)
Definition New (version : string) : CommandLine :=
  mkCommandLine "" 0 "" "" "" false "" version "" false "" "" "" "" false false
    0 "" false.

(** [c.Database = db]. *)
Definition setDatabase (db : string) (c : CommandLine) : CommandLine :=
  mkCommandLine (Host c) (Port c) (Username c) (Password c) db (Ssl c)
    (RetentionPolicy c) (ClientVersion c) (ServerVersion c) (Pretty c)
    (Format c) (Precision c) (WriteConsistency c) (Execute c) (ShowVersion c)
    (Import c) (PPS c) (Path c) (Compressed c).

(** [c.RetentionPolicy = rp]. *)
Definition setRetentionPolicy (rp : string) (c : CommandLine) : CommandLine :=
  mkCommandLine (Host c) (Port c) (Username c) (Password c) (Database c)
    (Ssl c) rp (ClientVersion c) (ServerVersion c) (Pretty c)
    (Format c) (Precision c) (WriteConsistency c) (Execute c) (ShowVersion c)
    (Import c) (PPS c) (Path c) (Compressed c).

Definition nl : string := String Char.newline "".
Definition tabSep : string := String Char.tab "".

(** What a method leaves behind: the value it returns, the receiver after
    its assignments, and the text it printed on standard output. *)
Record Outcome (A : Type) := mkOutcome {
  returned : A;
  receiver : CommandLine;
  printed : string
}.
Arguments mkOutcome {A} _ _ _.
Arguments returned {A} _.
Arguments receiver {A} _.
Arguments printed {A} _.

Definition parseInto (c : CommandLine) (stmt : string) : Outcome string :=
  let '(ident, stmt) := parseNextIdentifier stmt in
  let '(c, out, ident, stmt) :=
    if GoStrings.HasPrefix stmt "." then
      let c := setDatabase ident c in
      let out := "Using database " +:+ Database c +:+ nl in
      let '(ident, stmt) := parseNextIdentifier (GoStrings.tail stmt) in
      (c, out, ident, stmt)
    else (c, "", ident, stmt) in
  if GoStrings.HasPrefix stmt " " then
    let c := setRetentionPolicy ident c in
    let out := out +:+ "Using retention policy " +:+ RetentionPolicy c +:+ nl in
    mkOutcome (GoStrings.tail stmt) c out
  else mkOutcome stmt c out.

(** ** The response *)

(** A scalar of a value row, by the cases of the type switch in
    [interfaceToString]: nil, bool, the integer kinds (all printed by
    [%d], so one constructor carrying the number), the floating-point
    kinds, and strings, which take the default case.  [F] stands for the
    floating-point numbers; their [%v] text is supplied by the caller. *)
Inductive value (F : Type) : Type :=
  | VNil
  | VBool (b : bool)
  | VInt (n : Z)
  | VFloat (x : F)
  | VString (s : string).
Arguments VNil {F}.
Arguments VBool {F} b.
Arguments VInt {F} n.
Arguments VFloat {F} x.
Arguments VString {F} s.

(** Modelled from the spec: the declarations of the client package's Row
    (a Series of section 3: name, tags, columns, values), Result and
    Response, which the formatter receives. *)
Record Row (F : Type) := mkRow {
  Name : string;
  Tags : gmap string string;
  Columns : list string;
  Values : list (list (value F))
}.
Arguments mkRow {F} _ _ _ _.
Arguments Name {F} _.
Arguments Tags {F} _.
Arguments Columns {F} _.
Arguments Values {F} _.

Record Result (F : Type) := mkResult {
  Series : list (Row F);
  Err : option string
}.
Arguments mkResult {F} _ _.
Arguments Series {F} _.
Arguments Err {F} _.

Record Response (F : Type) := mkResponse {
  Results : list (Result F);
  ResponseErr : option string
}.
Arguments mkResponse {F} _ _.
Arguments Results {F} _.
Arguments ResponseErr {F} _.

(** ** Helpers standing for library calls *)

(** [fmt]'s [%d]: the decimal digits, with a minus sign when negative. *)
Definition formatInt (n : Z) : string := NilZero.string_of_int (Z.to_int n).

(** [fmt]'s [%v] of a bool. *)
Definition formatBool (b : bool) : string := if b then "true" else "false".

(** [sort.Strings]: increasing order of Go's [<] on strings, which compares
    byte by byte. *)
Definition sortStrings (l : list string) : list string :=
  merge_sort String.le l.

(** A [for _, x := range xs] loop whose body appends [g x] to a slice. *)
Definition appendEach {A B : Type} (g : A → B) (acc : list B) (xs : list A)
  : list B :=
  foldl (λ acc x, acc ++ [g x]) acc xs.

(** A [for i, x := range xs] loop threading an accumulator. *)
Fixpoint rangeFrom {A B : Type} (body : B → nat → A → B) (i : nat)
  (acc : B) (xs : list A) : B :=
  match xs with
  | [] => acc
  | x :: xs' => rangeFrom body (S i) (body acc i x) xs'
  end.

(** [fmt.Sprintf] of [%s=%s] on a tag: the composed key=value string. *)
Definition composed (kv : string * string) : string :=
  kv.1 +:+ "=" +:+ kv.2.

(** The tag-gathering loop over the entries in the order visited: append
    the composed string, then sort, for every entry. *)
Definition gatherLoop (visited : list (string * string)) : list string :=
  foldl (λ tags kv, sortStrings (tags ++ [composed kv])) [] visited.

(** Does the byte occur in the string? *)
Fixpoint occurs (ch : ascii) (s : string) : bool :=
  match s with
  | "" => false
  | String c s' => Ascii.eqb c ch || occurs ch s'
  end.

(** Modelled from the spec: the text [encoding/json] writes for a nil row
    value in json mode (sections 4.2 and 8: null renders as JSON null). *)
Definition jsonNull : string := "null".

(** ** The formatter *)

Section Formatter.
(** The floating-point numbers and their [%v] text. *)
Context {F : Type} (formatV : F → string).
(** The order in which a [range] over a tag map visits its entries; Go
    leaves it unspecified. *)
Context (rangeMap : gmap string string → list (string * string)).

Definition interfaceToString (v : value F) : string :=
  match v with
  | VNil => ""
  | VBool b => formatBool b
  | VInt n => formatInt n
  | VFloat x => formatV x
  | VString s => s
  end.

(** [for k, v := range row.Tags]: the loop, on the entries as [range]
    visits them. *)
Definition gatherTags (tags : gmap string string) : list string :=
  gatherLoop (rangeMap tags).

Definition isCSV (c : CommandLine) : bool := String.eqb (Format c) "csv".
Definition isColumn (c : CommandLine) : bool :=
  String.eqb (Format c) "column".
Definition named (row : Row F) : bool := negb (String.eqb (Name row) "").
Definition nonEmpty {A : Type} (l : list A) : bool := (0 <? length l)%nat.

(** The header's column names. *)
Definition headerNames (c : CommandLine) (row : Row F) (tags : list string)
  : list string :=
  let columnNames := [] in
  let columnNames :=
    if isCSV c then
      let columnNames :=
        if nonEmpty tags then ["tags"] ++ columnNames else columnNames in
      if named row then ["name"] ++ columnNames else columnNames
    else columnNames in
  appendEach id columnNames (Columns row).

(** One data row. *)
Definition valueRow (c : CommandLine) (separator : string) (row : Row F)
  (tags : list string) (v : list (value F)) : string :=
  let values := [] in
  let values :=
    if isCSV c then
      let values := if named row then values ++ [Name row] else values in
      if nonEmpty tags then values ++ [GoStrings.Join tags ","] else values
    else values in
  let values := appendEach interfaceToString values v in
  GoStrings.Join values separator.

(** The body of the loop over [result.Series]. *)
Definition formatSeries (c : CommandLine) (separator : string)
  (rows : list string) (i : nat) (row : Row F) : list string :=
  let tags := gatherTags (Tags row) in
  let columnNames := headerNames c row tags in
  let rows := if (0 <? i)%nat && isColumn c then rows ++ [""] else rows in
  let rows :=
    if isColumn c then
      let rows :=
        if named row then
          let n := "name: " +:+ Name row in
          let rows := rows ++ [n] in
          if (length tags =? 0)%nat
          then rows ++ [GoStrings.Repeat "-" (String.length n)]
          else rows
        else rows in
      if nonEmpty tags
      then rows ++ ["tags: " +:+ GoStrings.Join tags ", "]
      else rows
    else rows in
  let rows := rows ++ [GoStrings.Join columnNames separator] in
  let rows :=
    if isColumn c && nonEmpty tags then
      let lines :=
        appendEach (λ columnName,
                      GoStrings.Repeat "-" (String.length columnName))
                   [] columnNames in
      rows ++ [GoStrings.Join lines separator]
    else rows in
  let rows := appendEach (valueRow c separator row tags) rows (Values row) in
  if isColumn c then rows ++ [""] else rows.

Definition formatResults (c : CommandLine) (result : Result F)
  (separator : string) : list string :=
  rangeFrom (formatSeries c separator) 0 [] (Series result).
End Formatter.

(** ** Writing a response *)

(** The text written to the writer [w] handed to [FormatResponse] and the
    text written to [os.Stdout]. *)
Record Output := mkOutput {
  toWriter : string;
  toStdout : string
}.

Section Writers.
Context {F : Type} (formatV : F → string).
Context (rangeMap : gmap string string → list (string * string)).
(** [json.Marshal] and [json.MarshalIndent] (response, prefix, indent):
    the document, or the text of the error. *)
Context (Marshal : Response F → string + string).
Context (MarshalIndent : Response F → string → string → string + string).
(** What a [csv.Writer] emits for one record ([writeCSV] does not look at
    what [Write] returns); what a [tabwriter.Writer] set up by
    [Init(os.Stdout, 0, 8, 1, tab, 0)] emits on [Flush] for the text
    written into it; [fmt]'s [%q] of a string. *)
Context (csvRecord : list string → string).
Context (tabwriterFlush : string → string).
Context (formatQ : string → string).

Definition writeJSON (c : CommandLine) (response : Response F) : string :=
  let r :=
    if Pretty c then MarshalIndent response "" "    "
    else Marshal response in
  match r with
  | inr err => "Unable to parse json: " +:+ err +:+ nl
  | inl data => data +:+ nl
  end.

Definition writeCSV (c : CommandLine) (response : Response F) : string :=
  foldl (λ w result,
           let rows := formatResults formatV rangeMap c result "	" in
           foldl (λ w r, w +:+ csvRecord (GoStrings.Split r Char.tab))
                 w rows)
        "" (Results response).

(** The tabwriter is initialised on [os.Stdout], whatever writer the
    caller passed. *)
Definition writeColumns (c : CommandLine) (response : Response F)
  : string :=
  foldl (λ out result,
           let csv := formatResults formatV rangeMap c result "	" in
           out +:+ tabwriterFlush
                     (foldl (λ w r, w +:+ r +:+ nl) "" csv))
        "" (Results response).

Definition FormatResponse (c : CommandLine) (response : Response F)
  : Output :=
  if String.eqb (Format c) "json" then
    mkOutput (writeJSON c response) ""
  else if String.eqb (Format c) "csv" then
    mkOutput (writeCSV c response) ""
  else if String.eqb (Format c) "column" then
    mkOutput "" (writeColumns c response)
  else
    mkOutput ("Unknown output format " +:+ formatQ (Format c) +:+ "." +:+ nl)
             "".
End Writers.

(** ** Predicates for stating the properties *)

(** Every byte of [s] satisfies [p]. *)
Fixpoint every (p : ascii → bool) (s : string) : bool :=
  match s with
  | "" => true
  | String ch s' => p ch && every p s'
  end.

(** [s] can be written as an unquoted identifier: a letter or underscore
    followed by letters, digits and underscores. *)
Definition unquotedIdentifier (s : string) : bool :=
  match s with
  | "" => false
  | String ch s' =>
      isIdentFirstChar ch && every (λ c, negb (isNotIdentChar c)) s'
  end.

(** [s] cannot continue an unquoted identifier. *)
Definition endsIdentifier (s : string) : bool :=
  match s with
  | "" => true
  | String ch _ => isNotIdentChar ch
  end.

(** Quoted content in which every backslash is directly followed by a
    double quote and every double quote directly preceded by a backslash:
    a sequence of other bytes and backslash-quote pairs.
    [afterBackslash] tells that the byte before was a backslash. *)
Fixpoint escapedContent (afterBackslash : bool) (s : string) : bool :=
  match s with
  | "" => negb afterBackslash
  | String ch s' =>
      if afterBackslash then Ascii.eqb ch Char.dquote && escapedContent false s'
      else if Ascii.eqb ch Char.backslash then escapedContent true s'
      else negb (Ascii.eqb ch Char.dquote) && escapedContent false s'
  end.

(** The scanner of [parseDoubleQuotedIdentifier], started after the
    opening quote, takes no double quote of [s] as the closing one. *)
Definition unterminated (s : string) : bool :=
  negb (GoStrings.separates quoteSeparator false s).

(** After the leading whitespace nothing can start an identifier: the input
    ends, or goes on with a byte that is neither a letter, an underscore
    nor a double quote. *)
Definition nothingToParse (stmt : string) : bool :=
  match skipWhitespace stmt with
  | "" => true
  | String ch _ => negb (isIdentFirstChar ch) && negb (Ascii.eqb ch Char.dquote)
  end.

(** A [range] order: some enumeration of the entries of each map. *)
Definition rangeOrder (rangeMap : gmap string string → list (string * string))
  : Prop :=
  ∀ m, rangeMap m ≡ₚ map_to_list m.

(** ** More of package [strings] *)

Module GoStringsMore.
(** [strings.TrimSuffix] by way of [s[:len(s)-len(suffix)]]. *)
Fixpoint cutSuffix (suffix s : string) : option string :=
  if String.eqb s suffix then Some ""
  else match s with
       | "" => None
       | String ch s' =>
           match cutSuffix suffix s' with
           | Some front => Some (String ch front)
           | None => None
           end
       end.

Definition TrimSuffix (s suffix : string) : string :=
  match cutSuffix suffix s with
  | Some front => front
  | None => s
  end.

(** [strings.Replace(s, old, new, -1)] for a non-empty [old], which is
    how the shell calls it: every occurrence found from left to right,
    without overlap, gives way to [new].  [skip] counts the bytes of the
    occurrence just replaced that are still to be passed over. *)
Fixpoint replaceFrom (old new : string) (skip : nat) (s : string) : string :=
  match s with
  | "" => ""
  | String ch s' =>
      match skip with
      | S k => replaceFrom old new k s'
      | O =>
          if GoStrings.HasPrefix s old
          then new +:+ replaceFrom old new (String.length old - 1) s'
          else String ch (replaceFrom old new 0 s')
      end
  end.

Definition ReplaceAll (s old new : string) : string := replaceFrom old new 0 s.
End GoStringsMore.

(** ** Library functions that consult the Unicode tables

    [strings.ToLower], [strings.TrimSpace], [strings.Fields] and
    [strings.EqualFold] are taken as given, together with what they do on
    strings of bytes below 128, where no table is involved. *)

(** A byte below 128. *)
Definition isASCIIByte (ch : ascii) : bool :=
  match ch with
  | Ascii _ _ _ _ _ _ _ high => negb high
  end.

Definition isASCII (s : string) : bool := every isASCIIByte s.

(** The white space below 128: tab, newline, vertical tab, form feed,
    carriage return and space. *)
Definition asciiSpace (ch : ascii) : bool :=
  Char.between "009" "013" ch || Ascii.eqb ch Char.space.

(** The lower-case form of a byte below 128. *)
Definition lowerByte (ch : ascii) : ascii :=
  if Char.between "A" "Z" ch
  then ascii_of_N (N_of_ascii ch + 32)
  else ch.

Fixpoint lowerASCII (s : string) : string :=
  match s with
  | "" => ""
  | String ch s' => String (lowerByte ch) (lowerASCII s')
  end.

Fixpoint trimLeftASCII (s : string) : string :=
  match s with
  | "" => ""
  | String ch s' => if asciiSpace ch then trimLeftASCII s' else s
  end.

Fixpoint trimRightASCII (s : string) : string :=
  match s with
  | "" => ""
  | String ch s' =>
      match trimRightASCII s' with
      | "" => if asciiSpace ch then "" else String ch ""
      | kept => String ch kept
      end
  end.

Definition trimSpaceASCII (s : string) : string :=
  trimRightASCII (trimLeftASCII s).

Definition fieldsASCII (s : string) : list string :=
  GoStrings.FieldsFunc (stateless asciiSpace) tt s.

Definition equalFoldASCII (s t : string) : bool :=
  String.eqb (lowerASCII s) (lowerASCII t).

Class UnicodeStrings := {
  ToLower : string → string;
  TrimSpace : string → string;
  Fields : string → list string;
  EqualFold : string → string → bool;
  ToLower_ascii : ∀ s, isASCII s = true → ToLower s = lowerASCII s;
  TrimSpace_ascii : ∀ s, isASCII s = true → TrimSpace s = trimSpaceASCII s;
  Fields_ascii : ∀ s, isASCII s = true → Fields s = fieldsASCII s;
  EqualFold_ascii : ∀ s t,
    isASCII s = true → isASCII t = true → EqualFold s t = equalFoldASCII s t
}.

(** The four functions restricted to bytes below 128. *)
Definition asciiStrings : UnicodeStrings :=
  {| ToLower := lowerASCII;
     TrimSpace := trimSpaceASCII;
     Fields := fieldsASCII;
     EqualFold := equalFoldASCII;
     ToLower_ascii := λ _ _, eq_refl;
     TrimSpace_ascii := λ _ _, eq_refl;
     Fields_ascii := λ _ _, eq_refl;
     EqualFold_ascii := λ _ _ _ _, eq_refl |}.

(** ** The commands of the shell *)

Definition setFormat (format : string) (c : CommandLine) : CommandLine :=
  mkCommandLine (Host c) (Port c) (Username c) (Password c) (Database c)
    (Ssl c) (RetentionPolicy c) (ClientVersion c) (ServerVersion c) (Pretty c)
    format (Precision c) (WriteConsistency c) (Execute c) (ShowVersion c)
    (Import c) (PPS c) (Path c) (Compressed c).

Definition setPrecision (precision : string) (c : CommandLine) : CommandLine :=
  mkCommandLine (Host c) (Port c) (Username c) (Password c) (Database c)
    (Ssl c) (RetentionPolicy c) (ClientVersion c) (ServerVersion c) (Pretty c)
    (Format c) precision (WriteConsistency c) (Execute c) (ShowVersion c)
    (Import c) (PPS c) (Path c) (Compressed c).

Definition setWriteConsistency (level : string) (c : CommandLine)
  : CommandLine :=
  mkCommandLine (Host c) (Port c) (Username c) (Password c) (Database c)
    (Ssl c) (RetentionPolicy c) (ClientVersion c) (ServerVersion c) (Pretty c)
    (Format c) (Precision c) level (Execute c) (ShowVersion c)
    (Import c) (PPS c) (Path c) (Compressed c).

Definition setPretty (pretty : bool) (c : CommandLine) : CommandLine :=
  mkCommandLine (Host c) (Port c) (Username c) (Password c) (Database c)
    (Ssl c) (RetentionPolicy c) (ClientVersion c) (ServerVersion c) pretty
    (Format c) (Precision c) (WriteConsistency c) (Execute c) (ShowVersion c)
    (Import c) (PPS c) (Path c) (Compressed c).

Definition setUsername (username : string) (c : CommandLine) : CommandLine :=
  mkCommandLine (Host c) (Port c) username (Password c) (Database c)
    (Ssl c) (RetentionPolicy c) (ClientVersion c) (ServerVersion c) (Pretty c)
    (Format c) (Precision c) (WriteConsistency c) (Execute c) (ShowVersion c)
    (Import c) (PPS c) (Path c) (Compressed c).

Definition setPassword (password : string) (c : CommandLine) : CommandLine :=
  mkCommandLine (Host c) (Port c) (Username c) password (Database c)
    (Ssl c) (RetentionPolicy c) (ClientVersion c) (ServerVersion c) (Pretty c)
    (Format c) (Precision c) (WriteConsistency c) (Execute c) (ShowVersion c)
    (Import c) (PPS c) (Path c) (Compressed c).

(** Modelled from the spec: the batch handed to the write collaborator
    (section 6: line-protocol points plus database, retention policy,
    precision and consistency), with the fields [Insert] fills in. *)
Record Point := mkPoint { Raw : string }.

Record BatchPoints := mkBatchPoints {
  Points : list Point;
  BatchDatabase : string;
  BatchRetentionPolicy : string;
  BatchPrecision : string;
  BatchWriteConsistency : string
}.

(** What the shell does to the things it holds handles to: the calls on
    the client, and closing the [Quit] channel. *)
Inductive Call : Type :=
  | ClientSetPrecision (precision : string)
  | ClientSetAuth (username password : string)
  | ClientWrite (bp : BatchPoints)
  | CloseQuit.

(** A method run to its end: what it returns, the receiver afterwards,
    the text printed on standard output and the calls made, in order. *)
Record Done (A : Type) := mkDone {
  answer : A;
  state : CommandLine;
  stdout : string;
  calls : list Call
}.
Arguments mkDone {A} _ _ _ _.
Arguments answer {A} _.
Arguments state {A} _.
Arguments stdout {A} _.
Arguments calls {A} _.

(** What the commands depend on and is left open: [fmt]'s [%q], the
    client's [Write] (its error, if any), the two prompts of the line
    editor (the line read, or the error), [cluster.ParseConsistencyLevel]
    (whether it accepts the level), and the methods [ParseCommand] calls
    that print fixed text or drive the client, the line editor and the
    tabwriter; what is proved of [ParseCommand] holds whatever they do. *)
Record Collaborators := mkCollaborators {
  formatQuoted : string → string;
  clientWrite : BatchPoints → option string;
  linePrompt : string → string + string;
  linePasswordPrompt : string → string + string;
  acceptsConsistencyLevel : string → bool;
  gopher : CommandLine → Done unit;
  Connect : CommandLine → string → Done unit;
  help : CommandLine → Done unit;
  history : CommandLine → Done unit;
  Settings : CommandLine → Done unit;
  ExecuteQuery : CommandLine → string → Done unit
}.

Section Commands.
Context `{UnicodeStrings} (world : Collaborators).

(** The first two statements of [SetPrecision], [SetFormat] and
    [SetWriteConsistency]: drop the keyword wherever it occurs, trim,
    lower the case. *)
Definition withoutKeyword (keyword cmd : string) : string :=
  let cmd := TrimSpace (GoStringsMore.ReplaceAll cmd keyword "") in
  ToLower cmd.

Definition oneOf (s : string) (options : list string) : bool :=
  existsb (String.eqb s) options.

Definition SetFormat (c : CommandLine) (cmd : string) : Done unit :=
  let cmd := withoutKeyword "format" cmd in
  if oneOf cmd ["json"; "csv"; "column"] then
    mkDone tt (setFormat cmd c) "" []
  else
    mkDone tt c
      ("Unknown format " +:+ formatQuoted world cmd
       +:+ ". Please use json, csv, or column." +:+ nl) [].

Definition SetPrecision (c : CommandLine) (cmd : string) : Done unit :=
  let cmd := withoutKeyword "precision" cmd in
  if oneOf cmd ["h"; "m"; "s"; "ms"; "u"; "ns"] then
    let c := setPrecision cmd c in
    mkDone tt c "" [ClientSetPrecision (Precision c)]
  else if String.eqb cmd "rfc3339" then
    let c := setPrecision "" c in
    mkDone tt c "" [ClientSetPrecision (Precision c)]
  else
    mkDone tt c
      ("Unknown precision " +:+ formatQuoted world cmd
       +:+ ". Please use rfc3339, h, m, s, ms, u or ns." +:+ nl) [].

Definition SetWriteConsistency (c : CommandLine) (cmd : string) : Done unit :=
  let cmd := withoutKeyword "consistency" cmd in
  if acceptsConsistencyLevel world cmd then
    mkDone tt (setWriteConsistency cmd c) "" []
  else
    mkDone tt c
      ("Unknown consistency level " +:+ formatQuoted world cmd
       +:+ ". Please use any, one, quorum, or all." +:+ nl) [].

Definition use (c : CommandLine) (cmd : string) : Done unit :=
  let args :=
    GoStrings.Split (GoStringsMore.TrimSuffix (TrimSpace cmd) ";") Char.space in
  match args with
  | [_; d] =>
      mkDone tt (setDatabase d c) ("Using database " +:+ d +:+ nl) []
  | _ =>
      mkDone tt c
        ("Could not parse database name from " +:+ formatQuoted world cmd
         +:+ "." +:+ nl) []
  end.

Definition SetAuth (c : CommandLine) (cmd : string) : Done unit :=
  let args := Fields cmd in
  let args := match args with [_; u; p] => [u; p] | _ => [] end in
  let updateClient (c : CommandLine) (out : string) :=
    mkDone tt c out [ClientSetAuth (Username c) (Password c)] in
  match args with
  | [u; p] => updateClient (setPassword p (setUsername u c)) ""
  | _ =>
      match linePrompt world "username: " with
      | inr e => mkDone tt c ("Unable to process input: " +:+ e) []
      | inl u =>
          let c := setUsername (TrimSpace u) c in
          match linePasswordPrompt world "password: " with
          | inr e => mkDone tt c ("Unable to process input: " +:+ e) []
          | inl p => updateClient (setPassword p c) ""
          end
      end
  end.

(** [Insert] returns the error of the write, if there is one. *)
Definition Insert (c : CommandLine) (stmt : string) : Done (option string) :=
  let '(i, point) := parseNextIdentifier stmt in
  if negb (EqualFold i "insert") then
    mkDone None c ("ERR: found " +:+ i +:+ ", expected INSERT" +:+ nl) []
  else
    let '(c, out, point) :=
      let '(i, r) := parseNextIdentifier point in
      if EqualFold i "into" then
        let into := parseInto c r in
        (receiver into, printed into, returned into)
      else (c, "", point) in
    let bp := mkBatchPoints [mkPoint point] (Database c) (RetentionPolicy c)
                "n" (WriteConsistency c) in
    match clientWrite world bp with
    | Some err =>
        let out := out +:+ "ERR: " +:+ err +:+ nl in
        let out :=
          if String.eqb (Database c) "" then
            out
            +:+ "Note: error may be due to not setting a database or retention policy."
            +:+ nl
            +:+ "Please set a database with the command "
            +:+ quoted "use <database>" +:+ " or" +:+ nl
            +:+ "INSERT INTO <database>.<retention-policy> <point>" +:+ nl
          else out in
        mkDone (Some err) c out [ClientWrite bp]
    | None => mkDone None c out [ClientWrite bp]
    end.

(** Run a method for its effects and say what [ParseCommand] returns. *)
Definition handled {A : Type} (d : Done A) : Done bool :=
  mkDone true (state d) (stdout d) (calls d).

Definition ParseCommand (c : CommandLine) (cmd : string) : Done bool :=
  let lcmd := TrimSpace (ToLower cmd) in
  let tokens := Fields lcmd in
  match tokens with
  | token0 :: _ =>
      if String.eqb token0 "exit" then mkDone true c "" [CloseQuit]
      else if String.eqb token0 "gopher" then handled (gopher world c)
      else if String.eqb token0 "connect" then handled (Connect world c cmd)
      else if String.eqb token0 "auth" then handled (SetAuth c cmd)
      else if String.eqb token0 "help" then handled (help world c)
      else if String.eqb token0 "history" then handled (history world c)
      else if String.eqb token0 "format" then handled (SetFormat c cmd)
      else if String.eqb token0 "precision" then handled (SetPrecision c cmd)
      else if String.eqb token0 "consistency"
           then handled (SetWriteConsistency c cmd)
      else if String.eqb token0 "settings" then handled (Settings world c)
      else if String.eqb token0 "pretty" then
        let c := setPretty (negb (Pretty c)) c in
        mkDone true c
          ((if Pretty c then "Pretty print enabled"
            else "Pretty print disabled") +:+ nl) []
      else if String.eqb token0 "use" then handled (use c cmd)
      else if String.eqb token0 "insert" then handled (Insert c cmd)
      else handled (ExecuteQuery world c cmd)
  | [] => mkDone false c "" []
  end.
End Commands.

(** ** The records of csv mode *)

Definition concatStrings (l : list string) : string :=
  foldr String.app "" l.

(** The [values] slice of a data row just before it is joined. *)
Definition valueFields {F : Type} (formatV : F → string) (c : CommandLine)
    (row : Row F) (tags : list string) (v : list (value F)) : list string :=
  let values := [] in
  let values :=
    if isCSV c then
      let values := if named row then values ++ [Name row] else values in
      if nonEmpty tags then values ++ [GoStrings.Join tags ","] else values
    else values in
  appendEach (interfaceToString formatV) values v.

(** What splitting a joined row gives back: the fields, or one empty
    field when there were none. *)
Definition asRecord (fields : list string) : list string :=
  match fields with
  | [] => [""]
  | _ => fields
  end.

(** The header and data fields of one series, and of a whole response, in
    the order [writeCSV] meets them. *)
Definition seriesRecords {F : Type} (formatV : F → string)
    (rangeMap : gmap string string → list (string * string))
    (c : CommandLine) (row : Row F) : list (list string) :=
  let tags := gatherTags rangeMap (Tags row) in
  headerNames c row tags :: (valueFields formatV c row tags <$> Values row).

Definition responseRecords {F : Type} (formatV : F → string)
    (rangeMap : gmap string string → list (string * string))
    (c : CommandLine) (response : Response F) : list (list string) :=
  concat ((λ result, concat (seriesRecords formatV rangeMap c <$> Series result))
            <$> Results response).

(** No field of any record contains a tab. *)
Definition tabFree (records : list (list string)) : Prop :=
  Forall (Forall (λ field, occurs Char.tab field = false)) records.

(** ** The registration token *)

(** A call that returns, or panics on an index out of range or a failed
    type assertion. *)
Inductive Go (A : Type) : Type :=
  | Returns (a : A)
  | Panics.
Arguments Returns {A} a.
Arguments Panics {A}.

Section Token.
Context {F : Type}.
(** [c.Client.Query] for a command, giving the response or the error, and
    the [Error] method of a response. *)
Context (clientQuery : string → Response F + string).
Context (responseError : Response F → option string).

(** The loop over the columns of the first series, from index [i] on; the
    first column named token ends it with the value of the first row at
    that index, asserted to be a string. *)
Fixpoint tokenLoop (series0 : Row F) (i : nat) (columns : list string)
  : Go (string * option string) :=
  match columns with
  | [] => Returns ("", None)
  | s :: columns' =>
      if String.eqb s "token" then
        match Values series0 with
        | [] => Panics
        | row0 :: _ =>
            match row0 !! i with
            | Some (VString token) => Returns (token, None)
            | _ => Panics
            end
        end
      else tokenLoop series0 (S i) columns'
  end.

(** The token and the error [DatabaseToken] returns. *)
Definition DatabaseToken : Go (string * option string) :=
  match clientQuery "SHOW DIAGNOSTICS for 'registration'" with
  | inr err => Returns ("", Some err)
  | inl response =>
      match responseError response with
      | Some _ => Returns ("", None)
      | None =>
          match Results response with
          | [] => Panics
          | result0 :: _ =>
              match Series result0 with
              | [] => Returns ("", None)
              | series0 :: _ => tokenLoop series0 0 (Columns series0)
              end
          end
      end
  end.
End Token.

(** ** Predicates for the commands *)

(** A word: no white space in it. *)
Definition spaceFree (s : string) : bool :=
  every (λ ch, negb (asciiSpace ch)) s.

(** The word a command line starts with, in lower case. *)
Definition firstWord (cmd : string) : option string :=
  head (fieldsASCII (lowerASCII cmd)).

(** [tokens[0]] of [ParseCommand], when there is a token. *)
Definition firstToken `{UnicodeStrings} (cmd : string) : option string :=
  head (Fields (TrimSpace (ToLower cmd))).

(** The formats and precisions the shell accepts. *)
Definition formats : list string := ["json"; "csv"; "column"].
Definition precisions : list string := ["h"; "m"; "s"; "ms"; "u"; "ns"].

(** How often a byte occurs in a string. *)
Fixpoint countByte (ch : ascii) (s : string) : nat :=
  match s with
  | "" => 0
  | String c s' => (if Ascii.eqb c ch then 1 else 0) + countByte ch s'
  end.

(** A collaborator record for examples: nothing fails, [%q] puts its
    argument between double quotes, the prompts answer [admin] and
    [secret], and the remaining methods do nothing. *)
Definition quietWorld : Collaborators :=
  let idle (c : CommandLine) := mkDone tt c "" [] in
  mkCollaborators quoted (λ _, None) (λ _, inl "admin") (λ _, inl "secret")
    (λ level, oneOf level ["any"; "one"; "quorum"; "all"])
    idle (λ c _, idle c) idle idle idle (λ c _, idle c).

(** What [Insert] prints when the write fails. *)
Definition writeFailure (database : string) (err : string) : string :=
  "ERR: " +:+ err +:+ nl
  +:+ (if String.eqb database "" then
         "Note: error may be due to not setting a database or retention policy."
         +:+ nl
         +:+ "Please set a database with the command "
         +:+ quoted "use <database>" +:+ " or" +:+ nl
         +:+ "INSERT INTO <database>.<retention-policy> <point>" +:+ nl
       else "").

(** ** Sample inputs *)

Module Sample.
(** The four bytes a, backslash, double quote, b. *)
Definition escapedAB : string :=
  String "a" (String Char.backslash (String Char.dquote "b")).

(** The three bytes a, double quote, b. *)
Definition unescapedAB : string := String "a" (String Char.dquote "b").

(** A space, the quoted [escapedAB], a space and the word rest. *)
Definition quotedInput : string := " " +:+ quoted escapedAB +:+ " rest".

(** The quoted bytes a, backslash, n, b, then a space and the word rest. *)
Definition quotedNewlineEscape : string :=
  quoted (String "a" (String Char.backslash "nb")) +:+ " rest".

(** Two double quotes, then a space and the word rest. *)
Definition emptyQuotes : string := quoted "" +:+ " rest".

(** An opening double quote followed by abc and nothing else. *)
Definition openQuote : string := String Char.dquote "abc".

(** A nameless, tagless series with columns time and value and the row 0, 1. *)
Definition bareRow : Row Empty_set :=
  mkRow "" ∅ ["time"; "value"] [[VInt 0; VInt 1]].

(** The series cpu with the tag host=a, the same columns and row. *)
Definition cpuRow : Row Empty_set :=
  mkRow "cpu" {[ "host" := "a" ]} ["time"; "value"] [[VInt 0; VInt 1]].

(** A nameless series with the tags b=2 and a=1. *)
Definition taggedRow : Row Empty_set :=
  mkRow "" {[ "b" := "2"; "a" := "1" ]} ["time"; "value"] [[VInt 0; VInt 1]].

(** A series with a name and no tags. *)
Definition namedRow : Row Empty_set :=
  mkRow "cpu" ∅ ["time"; "value"] [[VInt 0; VInt 1]].

(** There are no floating-point values in the samples. *)
Definition noFloat (x : Empty_set) : string := "".

Definition shell (format : string) : CommandLine :=
  mkCommandLine "localhost" 8086 "" "" "db0" false "rp0" "" "" false format
    "" "any" "" false false 0 "" false.
End Sample.

(** * Properties *)

(** ** Strings *)

Section StringFacts.
Implicit Types s t u : string.

Lemma app_cons ch s t : String ch s +:+ t = String ch (s +:+ t).
Proof. reflexivity. Qed.

Lemma app_empty_r s : s +:+ "" = s.
Proof. induction s as [|ch s IH]; [done|]. by rewrite app_cons, IH. Qed.

Lemma app_assoc' s t u : (s +:+ t) +:+ u = s +:+ (t +:+ u).
Proof. induction s as [|ch s IH]; [done|]. by rewrite !app_cons, IH. Qed.

Lemma length_app' s t :
  String.length (s +:+ t) = String.length s + String.length t.
Proof. induction s as [|ch s IH]; [done|]. rewrite app_cons. simpl. lia. Qed.

Lemma cutPrefix_app p s : GoStrings.cutPrefix p (p +:+ s) = Some s.
Proof.
  induction p as [|ch p IH]; [done|].
  rewrite app_cons. simpl. by rewrite Ascii.eqb_refl.
Qed.

Lemma cutPrefix_length p s r :
  GoStrings.cutPrefix p s = Some r →
  String.length s = String.length p + String.length r.
Proof.
  revert s. induction p as [|ch p IH]; intros [|c s] H; simplify_eq/=; try done.
  destruct (Ascii.eqb ch c); [|done]. by rewrite (IH _ H).
Qed.

Lemma TrimPrefix_app p s : GoStrings.TrimPrefix (p +:+ s) p = s.
Proof. unfold GoStrings.TrimPrefix. by rewrite cutPrefix_app. Qed.

Lemma TrimPrefix_longer p s :
  String.length s < String.length p → GoStrings.TrimPrefix s p = s.
Proof.
  intros Hlen. unfold GoStrings.TrimPrefix.
  destruct (GoStrings.cutPrefix p s) as [r|] eqn:H; [|done].
  apply cutPrefix_length in H. lia.
Qed.
Lemma app_eq_length s : ∀ s' t t',
  s +:+ t = s' +:+ t' → String.length s = String.length s' → s = s'.
Proof.
  induction s as [|ch s IH]; intros [|c s'] t t' Heq Hlen;
    simpl in Hlen; try done.
  rewrite !app_cons in Heq. simplify_eq. f_equal. by eapply IH.
Qed.
End StringFacts.

(** ** The field scanner *)

Section ScanFacts.
Context {St : Type} (f : St → ascii → bool * St).
Implicit Types (st : St) (s w body rest : string).

(** While the predicate rejects every byte, the open field just grows. *)
Lemma scanFields_grow body : ∀ st w rest,
  GoStrings.separates f st body = false →
  GoStrings.scanFields f st (Some w) (body +:+ rest) =
  GoStrings.scanFields f (GoStrings.stateAfter f st body)
                       (Some (w +:+ body)) rest.
Proof.
  induction body as [|ch body IH]; intros st w rest Hsep.
  - by rewrite app_empty_r.
  - rewrite app_cons. simpl in *.
    destruct (f st ch) as [sep st'] eqn:Hf. simpl in *.
    apply orb_false_iff in Hsep as [-> Hsep].
    rewrite (IH _ _ _ Hsep). simpl.
    by rewrite app_assoc', app_cons.
Qed.

(** The same from the start of a non-empty field. *)
Lemma scanFields_start body st rest :
  body ≠ "" →
  GoStrings.separates f st body = false →
  GoStrings.scanFields f st None (body +:+ rest) =
  GoStrings.scanFields f (GoStrings.stateAfter f st body) (Some body) rest.
Proof.
  destruct body as [|ch body]; [done|]. intros _ Hsep.
  rewrite app_cons. simpl in *.
  destruct (f st ch) as [sep st'] eqn:Hf. simpl in *.
  apply orb_false_iff in Hsep as [-> Hsep].
  by rewrite (scanFields_grow _ _ _ _ Hsep).
Qed.

(** No field is empty. *)
Lemma scanFields_nonempty s : ∀ st cur,
  (∀ w, cur = Some w → w ≠ "") →
  Forall (λ w, w ≠ "") (GoStrings.scanFields f st cur s).
Proof.
  induction s as [|ch s IH]; intros st cur Hcur; simpl.
  - destruct cur as [w|]; simpl; [|constructor].
    constructor; [by apply Hcur | constructor].
  - destruct (f st ch) as [[] st'].
    + apply Forall_app. split; [|by apply IH].
      destruct cur as [w|]; simpl; [|constructor].
      constructor; [by apply Hcur | constructor].
    + apply IH. intros w [= <-]. by destruct cur as [[|? ?]|].
Qed.

Lemma FieldsFunc_nonempty st s :
  Forall (λ w, w ≠ "") (GoStrings.FieldsFunc f st s).
Proof. by apply scanFields_nonempty. Qed.
End ScanFacts.

(** ** The identifier parser *)

Lemma parseNextIdentifier_skip ws stmt :
  every isWhitespace ws = true →
  parseNextIdentifier (ws +:+ stmt) = parseNextIdentifier stmt.
Proof.
  induction ws as [|ch ws IH]; [done|].
  intros H. simpl in H. apply andb_true_iff in H as [Hch Hws].
  rewrite app_cons. simpl. rewrite Hch. auto.
Qed.

Lemma skipWhitespace_app ws stmt :
  every isWhitespace ws = true →
  skipWhitespace (ws +:+ stmt) = skipWhitespace stmt.
Proof.
  induction ws as [|ch ws IH]; [done|].
  intros H. simpl in H. apply andb_true_iff in H as [Hch Hws].
  rewrite app_cons. simpl. rewrite Hch. auto.
Qed.

(** The parser only looks at what follows the leading whitespace. *)
Lemma parseNextIdentifier_skipWhitespace stmt :
  parseNextIdentifier stmt = parseNextIdentifier (skipWhitespace stmt).
Proof.
  induction stmt as [|ch stmt IH]; [done|]. simpl.
  destruct (isWhitespace ch) eqn:Hch; [done|]. simpl. by rewrite Hch.
Qed.

Lemma separates_ident s :
  every (λ c, negb (isNotIdentChar c)) s = true →
  GoStrings.separates (stateless isNotIdentChar) tt s = false.
Proof.
  induction s as [|ch s IH]; [done|]. simpl.
  intros [Hch Hs]%andb_true_iff. apply negb_true_iff in Hch.
  rewrite Hch. auto.
Qed.

Lemma isIdentFirstChar_ident ch :
  isIdentFirstChar ch = true → isNotIdentChar ch = false.
Proof.
  unfold isIdentFirstChar, isNotIdentChar.
  intros [H|H]%orb_true_iff; rewrite H; by rewrite ?orb_true_r.
Qed.

Lemma isIdentFirstChar_not_space ch :
  isIdentFirstChar ch = true → isWhitespace ch = false.
Proof.
  destruct (isWhitespace ch) eqn:Hw; [|done].
  unfold isWhitespace in Hw.
  apply orb_true_iff in Hw as [[Hw|Hw]%orb_true_iff|Hw];
    apply Ascii.eqb_eq in Hw; by subst.
Qed.

(** An unquoted identifier is read up to the first byte that cannot
    continue it. *)
Lemma parseNextIdentifier_unquoted ident rest :
  unquotedIdentifier ident = true →
  endsIdentifier rest = true →
  parseNextIdentifier (ident +:+ rest) = (ident, rest).
Proof.
  intros Hid Hrest.
  destruct ident as [|ch ident]; [done|]. simpl in Hid.
  apply andb_true_iff in Hid as [Hch Hid].
  assert (GoStrings.separates (stateless isNotIdentChar) tt (String ch ident)
          = false) as Hsep.
  { simpl. rewrite (isIdentFirstChar_ident _ Hch). simpl.
    by apply separates_ident. }
  rewrite app_cons. simpl.
  rewrite (isIdentFirstChar_not_space _ Hch), Hch.
  unfold parseUnquotedIdentifier, GoStrings.FieldsFunc.
  rewrite <- app_cons.
  rewrite scanFields_start by done.
  destruct rest as [|c rest]; simpl.
  - by rewrite TrimPrefix_app.
  - simpl in Hrest. unfold stateless at 1. rewrite Hrest. simpl.
    by rewrite TrimPrefix_app.
Qed.

(** On escaped content the closure reports no separator and ends with its
    flag cleared. *)
Lemma escapedContent_scan body : ∀ b,
  escapedContent b body = true →
  GoStrings.separates quoteSeparator b body = false
  ∧ GoStrings.stateAfter quoteSeparator b body = false.
Proof.
  induction body as [|ch body IH]; intros b H; simpl in *.
  - by destruct b.
  - destruct b.
    + apply andb_true_iff in H as [Hq H]. apply Ascii.eqb_eq in Hq as ->.
      change (quoteSeparator true Char.dquote) with (false, false).
      by apply IH.
    + unfold quoteSeparator.
      destruct (Ascii.eqb ch Char.backslash); [by apply IH|].
      apply andb_true_iff in H as [Hq H]. apply negb_true_iff in Hq.
      rewrite Hq. by apply IH.
Qed.

Lemma quoted_app body rest :
  quoted body +:+ rest = String Char.dquote (body +:+ String Char.dquote rest).
Proof. unfold quoted. by rewrite app_cons, app_assoc', app_cons. Qed.

Lemma length_quoted body : String.length (quoted body) = S (S (String.length body)).
Proof. unfold quoted. simpl. rewrite length_app'. simpl. lia. Qed.

(** A quoted identifier whose closing quote the scanner recognises. *)
Lemma parseNextIdentifier_closed body rest :
  body ≠ "" →
  GoStrings.separates quoteSeparator false body = false →
  GoStrings.stateAfter quoteSeparator false body = false →
  parseNextIdentifier (quoted body +:+ rest) = (body, rest).
Proof.
  intros Hne Hsep Hst. rewrite quoted_app.
  change (parseNextIdentifier (String Char.dquote ?s))
    with (parseDoubleQuotedIdentifier (String Char.dquote s)).
  unfold parseDoubleQuotedIdentifier, GoStrings.FieldsFunc.
  change (GoStrings.scanFields quoteSeparator false None (String Char.dquote ?s))
    with (GoStrings.scanFields quoteSeparator false None s).
  rewrite scanFields_start by done. rewrite Hst. simpl.
  by rewrite <- quoted_app, TrimPrefix_app.
Qed.

(** A quoted identifier the scanner never sees closed. *)
Lemma parseNextIdentifier_open body :
  body ≠ "" →
  unterminated body = true →
  parseNextIdentifier (String Char.dquote body)
  = (body, String Char.dquote body).
Proof.
  intros Hne Hsep. apply negb_true_iff in Hsep.
  change (parseNextIdentifier (String Char.dquote ?s))
    with (parseDoubleQuotedIdentifier (String Char.dquote s)).
  unfold parseDoubleQuotedIdentifier, GoStrings.FieldsFunc.
  change (GoStrings.scanFields quoteSeparator false None (String Char.dquote ?s))
    with (GoStrings.scanFields quoteSeparator false None s).
  rewrite <- (app_empty_r body) at 1.
  rewrite scanFields_start by done. simpl.
  rewrite TrimPrefix_longer; [done|].
  rewrite length_quoted. simpl. lia.
Qed.

Lemma parseNextIdentifierDepth_enough stmt : ∀ fuel,
  String.length stmt < fuel →
  parseNextIdentifierDepth fuel stmt = Some (parseNextIdentifier stmt).
Proof.
  induction stmt as [|ch stmt IH]; intros [|fuel] Hlen; simpl in *;
    try lia; [done|].
  destruct (isWhitespace ch); [apply IH; lia|].
  by repeat case_match.
Qed.

Lemma parseNextIdentifier_empty stmt :
  (parseNextIdentifier stmt).1 = "" →
  (parseNextIdentifier stmt).2 = skipWhitespace stmt.
Proof.
  induction stmt as [|ch stmt IH]; [done|]. simpl.
  destruct (isWhitespace ch); [done|].
  destruct (isIdentFirstChar ch).
  { unfold parseUnquotedIdentifier.
    pose proof (FieldsFunc_nonempty (stateless isNotIdentChar) tt
                  (String ch stmt)) as Hne.
    destruct (GoStrings.FieldsFunc _ _ _) as [|w ws]; [done|].
    apply Forall_cons in Hne as [Hw _]. simpl. done. }
  destruct (Ascii.eqb ch Char.dquote); [|done].
  unfold parseDoubleQuotedIdentifier.
  pose proof (FieldsFunc_nonempty quoteSeparator false (String ch stmt)) as Hne.
  destruct (GoStrings.FieldsFunc _ _ _) as [|w ws]; [done|].
  apply Forall_cons in Hne as [Hw _]. simpl. done.
Qed.

(** C1, in the form the code satisfies: a double-quoted identifier comes
    back verbatim.  After
    any leading whitespace, for an opening double quote, a non-empty
    content made of bytes other than backslash and double quote and of
    backslash-quote pairs, a closing double quote and any further text,
    [parseNextIdentifier] returns the content exactly as written, its
    backslashes included and the two enclosing quotes stripped, and the
    text after the closing quote as remainder. *)
Theorem quoted_identifier_verbatim (ws body rest : string) :
  every isWhitespace ws = true →
  body ≠ "" →
  escapedContent false body = true →
  parseNextIdentifier (ws +:+ quoted body +:+ rest) = (body, rest).
Proof.
  intros Hws Hne Hbody.
  rewrite parseNextIdentifier_skip by done.
  destruct (escapedContent_scan _ _ Hbody) as [Hsep Hst].
  by apply parseNextIdentifier_closed.
Qed.

(** The example of the specification: the identifier keeps its backslash
    and the remainder keeps its leading space. *)
Lemma quoted_identifier_verbatim_witness :
  parseNextIdentifier Sample.quotedInput = (Sample.escapedAB, " rest").
Proof.
  apply (quoted_identifier_verbatim " " Sample.escapedAB " rest");
    [reflexivity | discriminate | reflexivity].
Defined.

(** On that input the identifier is not the three bytes a, double quote, b:
    the backslash is not consumed. *)
Lemma quoted_identifier_keeps_backslash :
  parseNextIdentifier Sample.quotedInput ≠ (Sample.unescapedAB, " rest").
Proof. vm_compute. discriminate. Qed.

(** Outside that content the flag set by a backslash outlives the next
    byte: after backslash-n the closing quote is taken as escaped, the
    field runs to the end of the input and nothing is trimmed. *)
Lemma escape_flag_outlives_next_byte :
  parseNextIdentifier Sample.quotedNewlineEscape
  = (String "a" (String Char.backslash "nb") +:+ String Char.dquote " rest",
     Sample.quotedNewlineEscape).
Proof. reflexivity. Qed.

(** With nothing between the quotes the first field is the text that
    follows them, and nothing is trimmed. *)
Lemma empty_quotes_take_next_field :
  parseNextIdentifier Sample.emptyQuotes = (" rest", Sample.emptyQuotes).
Proof. reflexivity. Qed.

(** C8, in the form the code satisfies: [parseNextIdentifier] is total
    and never fails.  Its
    recursion returns within one call more than the input has bytes; the
    whitespace-skipping call recurses on a strictly shorter string; when
    nothing parseable is present it returns the empty identifier, with
    the input less its leading whitespace as remainder; and whenever the
    identifier is empty that is the remainder. *)
Theorem parseNextIdentifier_total (stmt : string) :
  parseNextIdentifierDepth (S (String.length stmt)) stmt
  = Some (parseNextIdentifier stmt)
  ∧ (∀ ch rest, stmt = String ch rest → isWhitespace ch = true →
       parseNextIdentifier stmt = parseNextIdentifier rest
       ∧ String.length rest < String.length stmt)
  ∧ (nothingToParse stmt = true →
       parseNextIdentifier stmt = ("", skipWhitespace stmt))
  ∧ ((parseNextIdentifier stmt).1 = "" →
       (parseNextIdentifier stmt).2 = skipWhitespace stmt).
Proof.
  split; [apply parseNextIdentifierDepth_enough; lia|].
  split; [|split].
  - intros ch rest -> Hch. simpl. rewrite Hch. split; [done|lia].
  - unfold nothingToParse. intros H.
    rewrite parseNextIdentifier_skipWhitespace.
    destruct (skipWhitespace stmt) as [|ch rest] eqn:Hskip; [done|].
    assert (isWhitespace ch = false) as Hch.
    { clear H. induction stmt as [|c stmt IH]; [done|]. simpl in Hskip.
      destruct (isWhitespace c) eqn:Hc; [auto|]. by simplify_eq. }
    apply andb_true_iff in H as [H1%negb_true_iff H2%negb_true_iff].
    simpl. by rewrite Hch, H1, H2.
  - apply parseNextIdentifier_empty.
Qed.

Lemma parseNextIdentifier_total_witness :
  parseNextIdentifier " ;" = ("", ";")
  ∧ parseNextIdentifier " ;" = parseNextIdentifier ";"
  ∧ parseNextIdentifierDepth 3 " ;" = Some ("", ";").
Proof.
  destruct (parseNextIdentifier_total " ;") as (Hdepth & Hstep & Hnone & _).
  split; [apply Hnone; reflexivity|].
  split; [apply (Hstep " "%char ";"); reflexivity|].
  exact Hdepth.
Defined.

(** With nothing parseable after a leading space the identifier is empty
    but the remainder is not the input: the space is gone. *)
Lemma parseNextIdentifier_remainder_not_input :
  nothingToParse " ;" = true
  ∧ (parseNextIdentifier " ;").1 = ""
  ∧ (parseNextIdentifier " ;").2 ≠ " ;".
Proof. vm_compute. repeat split; discriminate. Qed.

(** C10: an opening double quote that the scanner never sees closed.
    After any leading whitespace, for a double quote followed by a
    non-empty text none of whose double quotes the scanner takes as the
    closing one, [parseNextIdentifier] returns that text as the
    identifier and the whole whitespace-stripped input, opening quote
    included, as remainder: the quote-identifier-quote prefix to trim is
    not a prefix of it, and identifier and remainder together are not a
    partition of it. *)
Theorem unterminated_quote_keeps_input (ws body : string) :
  every isWhitespace ws = true →
  body ≠ "" →
  unterminated body = true →
  parseNextIdentifier (ws +:+ String Char.dquote body)
  = (body, String Char.dquote body)
  ∧ skipWhitespace (ws +:+ String Char.dquote body) = String Char.dquote body
  ∧ GoStrings.HasPrefix (String Char.dquote body) (quoted body) = false
  ∧ body +:+ String Char.dquote body ≠ String Char.dquote body.
Proof.
  intros Hws Hne Hopen. repeat split.
  - rewrite parseNextIdentifier_skip by done.
    by apply parseNextIdentifier_open.
  - by rewrite skipWhitespace_app.
  - unfold GoStrings.HasPrefix.
    destruct (GoStrings.cutPrefix _ _) eqn:Hp; [|done].
    apply cutPrefix_length in Hp. rewrite length_quoted in Hp.
    simpl in Hp. lia.
  - intros Heq. apply (f_equal String.length) in Heq.
    rewrite length_app' in Heq. destruct body; [done|]. simpl in Heq. lia.
Qed.

Lemma unterminated_quote_keeps_input_witness :
  parseNextIdentifier Sample.openQuote = ("abc", Sample.openQuote)
  ∧ "abc" +:+ Sample.openQuote ≠ Sample.openQuote.
Proof.
  destruct (unterminated_quote_keeps_input "" "abc") as (Hparse & _ & _ & Hcat);
    [reflexivity | discriminate | reflexivity |].
  split; [exact Hparse | exact Hcat].
Defined.

(** Measured against the input before the whitespace is skipped, the
    identifier followed by the remainder spells the input only when the
    identifier is the skipped whitespace itself. *)
Lemma unterminated_quote_unstripped ws body :
  body +:+ String Char.dquote body = ws +:+ String Char.dquote body
  ↔ body = ws.
Proof.
  split; [|by intros ->].
  intros Heq. apply (app_eq_length _ _ _ _ Heq).
  apply (f_equal String.length) in Heq. rewrite !length_app' in Heq.
  simpl in Heq. lia.
Qed.

(** ** The INSERT INTO prefix *)

(** [db.rp line] with unquoted names: both fields are set and the line is
    what comes back. *)
Lemma parseInto_qualified c db rp line :
  unquotedIdentifier db = true →
  unquotedIdentifier rp = true →
  parseInto c (db +:+ "." +:+ rp +:+ " " +:+ line)
  = mkOutcome line (setRetentionPolicy rp (setDatabase db c))
      ("Using database " +:+ db +:+ nl
       +:+ "Using retention policy " +:+ rp +:+ nl).
Proof.
  intros Hdb Hrp. unfold parseInto.
  rewrite (parseNextIdentifier_unquoted db) by done.
  change (GoStrings.HasPrefix ("." +:+ ?s) ".") with true. cbv iota.
  change (GoStrings.tail ("." +:+ ?s)) with s.
  rewrite (parseNextIdentifier_unquoted rp) by done.
  change (GoStrings.HasPrefix (" " +:+ ?s) " ") with true. cbv iota.
  change (GoStrings.tail (" " +:+ ?s)) with s.
  simpl. by rewrite !app_assoc'.
Qed.

(** [rp line] with an unquoted name: only the retention policy is set. *)
Lemma parseInto_policy_only c rp line :
  unquotedIdentifier rp = true →
  parseInto c (rp +:+ " " +:+ line)
  = mkOutcome line (setRetentionPolicy rp c)
      ("Using retention policy " +:+ rp +:+ nl).
Proof.
  intros Hrp. unfold parseInto.
  rewrite (parseNextIdentifier_unquoted rp) by done.
  change (GoStrings.HasPrefix (" " +:+ ?s) ".") with false. cbv iota.
  change (GoStrings.HasPrefix (" " +:+ ?s) " ") with true. cbv iota.
  by change (GoStrings.tail (" " +:+ ?s)) with s.
Qed.

(** C7: the two branches of [parseInto].  With [ident] and [rest] the
    result of parsing the first identifier: when [rest] begins with a dot,
    [ident] becomes the database, and the second identifier, parsed after
    the dot, becomes the retention policy when a space follows it, the
    text after that space being returned; when [rest] begins with a space
    and no dot, [ident] becomes the retention policy only, the database
    keeps its prior value, and the text after the space is returned;
    otherwise nothing is assigned. *)
Theorem parseInto_database_and_policy (c : CommandLine) (stmt : string) :
  let ident := (parseNextIdentifier stmt).1 in
  let rest := (parseNextIdentifier stmt).2 in
  let ident2 := (parseNextIdentifier (GoStrings.tail rest)).1 in
  let rest2 := (parseNextIdentifier (GoStrings.tail rest)).2 in
  let out := parseInto c stmt in
  (GoStrings.HasPrefix rest "." = true →
     Database (receiver out) = ident
     ∧ (GoStrings.HasPrefix rest2 " " = true →
          receiver out = setRetentionPolicy ident2 (setDatabase ident c)
          ∧ returned out = GoStrings.tail rest2)
     ∧ (GoStrings.HasPrefix rest2 " " = false →
          receiver out = setDatabase ident c ∧ returned out = rest2))
  ∧ (GoStrings.HasPrefix rest "." = false →
     GoStrings.HasPrefix rest " " = true →
       receiver out = setRetentionPolicy ident c
       ∧ Database (receiver out) = Database c
       ∧ returned out = GoStrings.tail rest)
  ∧ (GoStrings.HasPrefix rest "." = false →
     GoStrings.HasPrefix rest " " = false →
       receiver out = c ∧ returned out = rest).
Proof.
  unfold parseInto.
  destruct (parseNextIdentifier stmt) as [ident rest]. cbn [fst snd].
  destruct (GoStrings.HasPrefix rest ".") eqn:Hdot.
  - destruct (parseNextIdentifier (GoStrings.tail rest)) as [ident2 rest2].
    cbn [fst snd].
    destruct (GoStrings.HasPrefix rest2 " ") eqn:Hsp; simpl;
      repeat split; intros; simplify_eq; done.
  - destruct (GoStrings.HasPrefix rest " ") eqn:Hsp; simpl;
      repeat split; intros; simplify_eq; done.
Qed.

(** The two examples of the specification. *)
Lemma parseInto_database_and_policy_witness :
  (let out := parseInto (Sample.shell "column") "mydb.rp value" in
   Database (receiver out) = "mydb"
   ∧ RetentionPolicy (receiver out) = "rp"
   ∧ returned out = "value")
  ∧ (let out := parseInto (Sample.shell "column") "rp value" in
     RetentionPolicy (receiver out) = "rp"
     ∧ Database (receiver out) = "db0"
     ∧ returned out = "value").
Proof.
  split.
  - destruct (parseInto_database_and_policy
                (Sample.shell "column") "mydb.rp value") as [Hdot _].
    destruct (Hdot eq_refl) as (Hdb & Hrp & _).
    destruct (Hrp eq_refl) as [Hrecv Hret].
    cbv zeta. rewrite Hret, Hrecv. repeat split.
  - destruct (parseInto_database_and_policy
                (Sample.shell "column") "rp value") as (_ & Hsp & _).
    destruct (Hsp eq_refl eq_refl) as (Hrecv & Hdb & Hret).
    cbv zeta. rewrite Hret, Hrecv. repeat split.
Defined.

(** ** Gathering the tags *)

Lemma appendEach_map {A B : Type} (g : A → B) xs : ∀ acc,
  appendEach g acc xs = acc ++ (g <$> xs).
Proof.
  unfold appendEach.
  induction xs as [|x xs IH]; intros acc; simpl.
  - by rewrite app_nil_r.
  - by rewrite IH, <- app_assoc.
Qed.

Section TagFacts.
Context (rangeMap : gmap string string → list (string * string)).
Implicit Types (m : gmap string string) (l : list (string * string)).

Lemma gatherTags_loop m : gatherTags rangeMap m = gatherLoop (rangeMap m).
Proof. reflexivity. Qed.

(** The loop sorts after every append. *)
Lemma gatherLoop_snoc l kv :
  gatherLoop (l ++ [kv]) = sortStrings (gatherLoop l ++ [composed kv]).
Proof. unfold gatherLoop. by rewrite foldl_app. Qed.

Lemma gatherLoop_Sorted l : Sorted String.le (gatherLoop l).
Proof.
  destruct l as [|kv l _] using rev_ind; [constructor|].
  rewrite gatherLoop_snoc. apply (Sorted_merge_sort String.le).
Qed.

Lemma gatherLoop_Permutation l : gatherLoop l ≡ₚ composed <$> l.
Proof.
  induction l as [|kv l IH] using rev_ind; [done|].
  rewrite gatherLoop_snoc, fmap_app. unfold sortStrings.
  by rewrite merge_sort_Permutation, IH.
Qed.

(** Whatever the order of the visit, the loop ends with the sorted list of
    the composed strings. *)
Lemma gatherLoop_sortStrings l l' :
  l ≡ₚ l' → gatherLoop l = sortStrings (composed <$> l').
Proof.
  intros Hperm. apply (Sorted_unique String.le).
  - apply gatherLoop_Sorted.
  - apply (Sorted_merge_sort String.le).
  - unfold sortStrings.
    by rewrite gatherLoop_Permutation, merge_sort_Permutation, Hperm.
Qed.

Lemma gatherTags_canonical m :
  rangeOrder rangeMap →
  gatherTags rangeMap m = sortStrings (composed <$> map_to_list m).
Proof. intros Horder. rewrite gatherTags_loop. by apply gatherLoop_sortStrings. Qed.

Lemma gatherTags_nil m :
  rangeOrder rangeMap → (gatherTags rangeMap m = [] ↔ m = ∅).
Proof.
  intros Horder. rewrite <- map_to_list_empty_iff.
  pose proof (gatherLoop_Permutation (rangeMap m)) as Hperm.
  rewrite <- gatherTags_loop, (Horder m) in Hperm. split.
  - intros Hnil. rewrite Hnil in Hperm.
    apply Permutation_nil_l in Hperm. symmetry in Hperm.
    by apply fmap_nil_inv in Hperm.
  - intros Hnil. rewrite Hnil in Hperm. by apply Permutation_nil_r in Hperm.
Qed.
End TagFacts.

(** ** The rows of one series *)

Section SeriesFacts.
Context {F : Type} (formatV : F → string).
Context (rangeMap : gmap string string → list (string * string)).
Implicit Types (c : CommandLine) (row : Row F) (rows : list string).

(** The loop body only appends, in this order: separator line, name and
    tag lines, header, underline, data rows, closing blank line. *)
Lemma formatSeries_rows c separator rows i row :
  let tags := gatherTags rangeMap (Tags row) in
  let columnNames := headerNames c row tags in
  formatSeries formatV rangeMap c separator rows i row
  = rows
    ++ (if (0 <? i)%nat && isColumn c then [""] else [])
    ++ (if isColumn c && named row then ["name: " +:+ Name row] else [])
    ++ (if isColumn c && named row && (length tags =? 0)%nat
        then [GoStrings.Repeat "-" (String.length ("name: " +:+ Name row))]
        else [])
    ++ (if isColumn c && nonEmpty tags
        then ["tags: " +:+ GoStrings.Join tags ", "] else [])
    ++ [GoStrings.Join columnNames separator]
    ++ (if isColumn c && nonEmpty tags
        then [GoStrings.Join
                ((λ columnName, GoStrings.Repeat "-" (String.length columnName))
                   <$> columnNames) separator]
        else [])
    ++ (valueRow formatV c separator row tags <$> Values row)
    ++ (if isColumn c then [""] else []).
Proof.
  intros tags columnNames. unfold formatSeries.
  fold tags. fold columnNames. rewrite !appendEach_map.
  destruct ((0 <? i)%nat), (isColumn c), (named row), (nonEmpty tags),
    ((length tags =? 0)%nat); simpl;
    rewrite <- ?app_assoc; simpl; rewrite ?app_nil_r; reflexivity.
Qed.

Lemma formatSeries_app c separator rows i row :
  formatSeries formatV rangeMap c separator rows i row
  = rows ++ formatSeries formatV rangeMap c separator [] i row.
Proof. by rewrite (formatSeries_rows _ _ rows), (formatSeries_rows _ _ []). Qed.

Lemma isColumn_true c : Format c = "column" → isColumn c = true ∧ isCSV c = false.
Proof. unfold isColumn, isCSV. by intros ->. Qed.

Lemma isCSV_true c : Format c = "csv" → isCSV c = true ∧ isColumn c = false.
Proof. unfold isColumn, isCSV. by intros ->. Qed.

Lemma named_true row : named row = true ↔ Name row ≠ "".
Proof.
  unfold named. rewrite negb_true_iff. apply String.eqb_neq.
Qed.

Lemma named_false row : named row = false ↔ Name row = "".
Proof.
  unfold named. rewrite negb_false_iff. apply String.eqb_eq.
Qed.

Lemma nonEmpty_length {A : Type} (l : list A) :
  nonEmpty l = negb (length l =? 0)%nat.
Proof. by destruct l. Qed.

Lemma nonEmpty_gatherTags row :
  rangeOrder rangeMap →
  nonEmpty (gatherTags rangeMap (Tags row)) = true ↔ Tags row ≠ ∅.
Proof.
  intros Horder. rewrite <- (gatherTags_nil rangeMap) by done.
  by destruct (gatherTags rangeMap (Tags row)).
Qed.

Lemma headerNames_column c row tags :
  isCSV c = false → headerNames c row tags = Columns row.
Proof.
  intros Hcsv. unfold headerNames. rewrite Hcsv, appendEach_map.
  simpl. by rewrite list_fmap_id.
Qed.

Lemma valueRow_column c separator row tags v :
  isCSV c = false →
  valueRow formatV c separator row tags v
  = GoStrings.Join (interfaceToString formatV <$> v) separator.
Proof.
  intros Hcsv. unfold valueRow. by rewrite Hcsv, appendEach_map.
Qed.

Lemma headerNames_csv c row tags :
  isCSV c = true → named row = true → nonEmpty tags = true →
  headerNames c row tags = "name" :: "tags" :: Columns row.
Proof.
  intros Hcsv Hname Htags. unfold headerNames.
  rewrite Hcsv, Hname, Htags, appendEach_map. simpl.
  by rewrite list_fmap_id.
Qed.

Lemma valueRow_csv c separator row tags v :
  isCSV c = true → named row = true → nonEmpty tags = true →
  valueRow formatV c separator row tags v
  = GoStrings.Join
      (Name row :: GoStrings.Join tags "," :: (interfaceToString formatV <$> v))
      separator.
Proof.
  intros Hcsv Hname Htags. unfold valueRow.
  by rewrite Hcsv, Hname, Htags, appendEach_map.
Qed.
End SeriesFacts.

Lemma fmap_ext_all {A B : Type} (g h : A → B) (l : list A) :
  (∀ x, g x = h x) → g <$> l = h <$> l.
Proof.
  intros Hgh. induction l as [|x l IH]; [done|].
  by rewrite !fmap_cons, Hgh, IH.
Qed.

(** ** The rows of a result *)

(** Appends of rows brought to one shape: nested to the right. *)
Ltac rows_norm :=
  repeat first [ rewrite <- app_assoc | rewrite <- app_comm_cons
               | rewrite app_nil_l ].

Section ResultFacts.
Context {F : Type} (formatV : F → string).
Context (rangeMap : gmap string string → list (string * string)).

(** The result is the concatenation of the blocks of its series; a block
    depends on the other series only through its index. *)
Lemma rangeFrom_formatSeries c separator (series : list (Row F)) : ∀ i rows,
  rangeFrom (formatSeries formatV rangeMap c separator) i rows series
  = rows ++ concat (imap (λ k row, formatSeries formatV rangeMap c separator
                                     [] (i + k) row) series).
Proof.
  induction series as [|row series IH]; intros i rows; simpl.
  - by rewrite app_nil_r.
  - rewrite IH, (formatSeries_app _ _ _ _ rows), Nat.add_0_r, <- app_assoc.
    do 3 f_equal. apply imap_ext. intros k r _. simpl. f_equal. lia.
Qed.

Lemma formatResults_concat c (result : Result F) separator :
  formatResults formatV rangeMap c result separator
  = concat (imap (λ i row, formatSeries formatV rangeMap c separator [] i row)
                 (Series result)).
Proof. unfold formatResults. by rewrite rangeFrom_formatSeries. Qed.

(** The index of a series matters only through being the first or not. *)
Lemma formatSeries_index c separator i (row : Row F) :
  formatSeries formatV rangeMap c separator [] i row
  = (if (0 <? i)%nat && isColumn c then [""] else [])
    ++ formatSeries formatV rangeMap c separator [] 0 row.
Proof.
  rewrite !(formatSeries_rows _ _ _ _ []). simpl.
  by destruct ((0 <? i)%nat && isColumn c).
Qed.

(** The blocks of series that are not at the front of the result. *)
Lemma blocks_after_first c separator (series : list (Row F)) n :
  (0 < n)%nat →
  concat (imap (λ k row, formatSeries formatV rangeMap c separator
                           [] (n + k) row) series)
  = (if isColumn c && nonEmpty series then [""] else [])
    ++ concat (imap (λ k row, formatSeries formatV rangeMap c separator
                                [] k row) series).
Proof.
  intros Hn. destruct series as [|row series].
  { by rewrite andb_false_r. }
  simpl. rewrite andb_true_r, Nat.add_0_r, (formatSeries_index _ _ n).
  assert ((0 <? n)%nat = true) as -> by (by apply Nat.ltb_lt).
  simpl. rewrite <- app_assoc. do 2 f_equal.
  f_equal. apply imap_ext. intros k r _. simpl.
  rewrite (formatSeries_index _ _ (n + S k)), (formatSeries_index _ _ (S k)).
  assert ((0 <? n + S k)%nat = true) as -> by (apply Nat.ltb_lt; lia).
  done.
Qed.

(** The rows of a result whose series are [front] and then [back]. *)
Lemma formatResults_split c (front back : list (Row F)) err separator :
  formatResults formatV rangeMap c (mkResult (front ++ back) err) separator
  = formatResults formatV rangeMap c (mkResult front err) separator
    ++ (if isColumn c && nonEmpty front && nonEmpty back then [""] else [])
    ++ formatResults formatV rangeMap c (mkResult back err) separator.
Proof.
  rewrite !formatResults_concat. cbn [Series].
  rewrite imap_app, concat_app. f_equal.
  destruct front as [|row front].
  { simpl. by rewrite andb_false_r. }
  rewrite andb_true_r.
  rewrite <- (blocks_after_first c separator back (length (row :: front)))
    by (simpl; lia).
  done.
Qed.

(** The rows of one series among the others of its result: those it
    would have as the only series, with the rows of the series before
    and after around them and, in column mode, an empty row towards
    either side that has series. *)
Lemma formatResults_around c (front back : list (Row F)) (row : Row F) err
    separator :
  formatResults formatV rangeMap c (mkResult (front ++ row :: back) err)
    separator
  = formatResults formatV rangeMap c (mkResult front err) separator
    ++ (if isColumn c && nonEmpty front then [""] else [])
    ++ formatSeries formatV rangeMap c separator [] 0 row
    ++ (if isColumn c && nonEmpty back then [""] else [])
    ++ formatResults formatV rangeMap c (mkResult back err) separator.
Proof.
  change (row :: back) with ([row] ++ back).
  rewrite formatResults_split, (formatResults_split _ [row] back).
  assert (nonEmpty ([row] ++ back) = true) as -> by done.
  assert (nonEmpty [row] = true) as -> by done.
  rewrite !andb_true_r.
  rewrite (formatResults_concat _ (mkResult [row] err)).
  cbn [Series imap concat]. by rewrite app_nil_r.
Qed.

(** The rows of a series in column mode, taken alone. *)
Lemma formatSeries_column c separator (row : Row F) :
  rangeOrder rangeMap →
  Format c = "column" →
  let tags := sortStrings (composed <$> map_to_list (Tags row)) in
  let nameLine := "name: " +:+ Name row in
  formatSeries formatV rangeMap c separator [] 0 row
  = (if named row then [nameLine] else [])
    ++ (if named row && (length tags =? 0)%nat
        then [GoStrings.Repeat "-" (String.length nameLine)] else [])
    ++ (if nonEmpty tags then ["tags: " +:+ GoStrings.Join tags ", "] else [])
    ++ [GoStrings.Join (Columns row) separator]
    ++ (if nonEmpty tags
        then [GoStrings.Join
                ((λ columnName, GoStrings.Repeat "-" (String.length columnName))
                   <$> Columns row) separator]
        else [])
    ++ ((λ v, GoStrings.Join (interfaceToString formatV <$> v) separator)
          <$> Values row)
    ++ [""].
Proof.
  intros Horder Hformat tags nameLine.
  destruct (isColumn_true _ Hformat) as [Hcol Hcsv].
  rewrite formatSeries_rows.
  rewrite (gatherTags_canonical rangeMap (Tags row) Horder). fold tags.
  rewrite Hcol, (headerNames_column c row tags Hcsv).
  rewrite (fmap_ext_all (valueRow formatV c separator row tags) _ (Values row)
             (λ v, valueRow_column formatV c separator row tags v Hcsv)).
  reflexivity.
Qed.

(** The rows of a series in csv mode, taken alone. *)
Lemma formatSeries_csv c separator (row : Row F) :
  rangeOrder rangeMap →
  Format c = "csv" →
  let tags := sortStrings (composed <$> map_to_list (Tags row)) in
  formatSeries formatV rangeMap c separator [] 0 row
  = [GoStrings.Join
       ((if named row then ["name"] else [])
          ++ (if nonEmpty tags then ["tags"] else []) ++ Columns row)
       separator]
    ++ ((λ v, GoStrings.Join
                ((if named row then [Name row] else [])
                   ++ (if nonEmpty tags then [GoStrings.Join tags ","] else [])
                   ++ (interfaceToString formatV <$> v)) separator)
          <$> Values row).
Proof.
  intros Horder Hformat tags.
  destruct (isCSV_true _ Hformat) as [Hcsv Hcol].
  rewrite formatSeries_rows.
  rewrite (gatherTags_canonical rangeMap (Tags row) Horder). fold tags.
  rewrite Hcol. cbn [andb app]. rewrite andb_false_r, app_nil_r.
  cbn [app]. f_equal.
  - unfold headerNames. rewrite Hcsv, appendEach_map, list_fmap_id.
    by destruct (named row), (nonEmpty tags).
  - apply fmap_ext_all. intros v. unfold valueRow.
    rewrite Hcsv, appendEach_map.
    by destruct (named row), (nonEmpty tags).
Qed.
End ResultFacts.

(** Nothing in the rows depends on the order in which the tags are
    visited. *)
Lemma formatResults_any_order {F : Type} (formatV : F → string)
    (rangeMap rangeMap' : gmap string string → list (string * string))
    (c : CommandLine) (result : Result F) (separator : string) :
  rangeOrder rangeMap →
  rangeOrder rangeMap' →
  formatResults formatV rangeMap c result separator
  = formatResults formatV rangeMap' c result separator.
Proof.
  intros Horder Horder'. rewrite !formatResults_concat. f_equal.
  apply imap_ext. intros i row _. simpl.
  rewrite !formatSeries_rows.
  by rewrite (gatherTags_canonical rangeMap _ Horder),
    (gatherTags_canonical rangeMap' _ Horder').
Qed.

(** C2: the tag list that [formatResults] renders.  For every series of
    every result, whatever series come before and after it: the gathered
    tag list is in increasing lexicographic (byte-wise) order of the full
    composed key=value strings and holds exactly the composed strings of
    the tags; the list, and with it every row of the result, is the same
    whatever order the tag map is visited in.  In column mode a series
    with tags is rendered with the row tags: followed by that list joined
    by comma and space, directly above its header row; in csv mode the
    list joined by commas is the field under the tags column of every
    data row of the series.  A series with the tags b=2 and a=1 always
    renders them as a=1 then b=2. *)
Theorem tags_sorted_by_composed_string {F : Type} (formatV : F → string)
    (rangeMap rangeMap' : gmap string string → list (string * string))
    (c : CommandLine) (separator : string) (front back : list (Row F))
    (row : Row F) (err : option string) :
  rangeOrder rangeMap →
  rangeOrder rangeMap' →
  let tags := gatherTags rangeMap (Tags row) in
  let result := mkResult (front ++ row :: back) err in
  let rendered := formatResults formatV rangeMap c result separator in
  let rowsBefore :=
    formatResults formatV rangeMap c (mkResult front err) separator in
  let rowsAfter :=
    formatResults formatV rangeMap c (mkResult back err) separator in
  let blank (series : list (Row F)) :=
    if nonEmpty series then [""] else [] in
  Sorted String.le tags
  ∧ tags ≡ₚ composed <$> map_to_list (Tags row)
  ∧ tags = gatherTags rangeMap' (Tags row)
  ∧ rendered = formatResults formatV rangeMap' c result separator
  ∧ (Format c = "column" → Tags row ≠ ∅ →
       rendered
       = rowsBefore ++ blank front
         ++ (if named row then ["name: " +:+ Name row] else [])
         ++ ["tags: " +:+ GoStrings.Join tags ", "]
         ++ [GoStrings.Join (Columns row) separator;
             GoStrings.Join
               ((λ columnName, GoStrings.Repeat "-" (String.length columnName))
                  <$> Columns row) separator]
         ++ ((λ v, GoStrings.Join (interfaceToString formatV <$> v) separator)
               <$> Values row)
         ++ [""] ++ blank back ++ rowsAfter)
  ∧ (Format c = "csv" → Tags row ≠ ∅ →
       rendered
       = rowsBefore
         ++ [GoStrings.Join
               ((if named row then ["name"] else []) ++ "tags" :: Columns row)
               separator]
         ++ ((λ v, GoStrings.Join
                     ((if named row then [Name row] else [])
                        ++ GoStrings.Join tags ","
                        :: (interfaceToString formatV <$> v)) separator)
               <$> Values row)
         ++ rowsAfter)
  ∧ (Tags row = {[ "b" := "2"; "a" := "1" ]} →
       tags = ["a=1"; "b=2"]
       ∧ (Format c = "column" → "tags: a=1, b=2" ∈ rendered)
       ∧ (Format c = "csv" → ∀ v, v ∈ Values row →
            GoStrings.Join
              ((if named row then [Name row] else [])
                 ++ "a=1,b=2" :: (interfaceToString formatV <$> v)) separator
            ∈ rendered)).
Proof.
  intros Horder Horder' tags result rendered rowsBefore rowsAfter blank.
  assert (tags = sortStrings (composed <$> map_to_list (Tags row))) as Htags
    by by apply gatherTags_canonical.
  assert (Tags row ≠ ∅ → nonEmpty tags = true ∧ (length tags =? 0)%nat = false)
    as Hsome.
  { intros Hne. apply (nonEmpty_gatherTags rangeMap row Horder) in Hne.
    split; [done|]. fold tags in Hne. rewrite nonEmpty_length in Hne.
    by apply negb_true_iff in Hne. }
  assert (Format c = "column" → Tags row ≠ ∅ →
       rendered
       = rowsBefore ++ blank front
         ++ (if named row then ["name: " +:+ Name row] else [])
         ++ ["tags: " +:+ GoStrings.Join tags ", "]
         ++ [GoStrings.Join (Columns row) separator;
             GoStrings.Join
               ((λ columnName, GoStrings.Repeat "-" (String.length columnName))
                  <$> Columns row) separator]
         ++ ((λ v, GoStrings.Join (interfaceToString formatV <$> v) separator)
               <$> Values row)
         ++ [""] ++ blank back ++ rowsAfter) as Hcolumn.
  { intros Hformat Hne. destruct (Hsome Hne) as [Hn Hlen].
    destruct (isColumn_true _ Hformat) as [Hcol _].
    unfold rendered, result. rewrite formatResults_around.
    rewrite (formatSeries_column formatV rangeMap c separator row Horder Hformat).
    rewrite <- Htags, Hcol, Hn, Hlen, andb_false_r. cbn [andb app].
    rows_norm. reflexivity. }
  assert (Format c = "csv" → Tags row ≠ ∅ →
       rendered
       = rowsBefore
         ++ [GoStrings.Join
               ((if named row then ["name"] else []) ++ "tags" :: Columns row)
               separator]
         ++ ((λ v, GoStrings.Join
                     ((if named row then [Name row] else [])
                        ++ GoStrings.Join tags ","
                        :: (interfaceToString formatV <$> v)) separator)
               <$> Values row)
         ++ rowsAfter) as Hcsv.
  { intros Hformat Hne. destruct (Hsome Hne) as [Hn _].
    destruct (isCSV_true _ Hformat) as [_ Hcol].
    unfold rendered, result. rewrite formatResults_around.
    rewrite (formatSeries_csv formatV rangeMap c separator row Horder Hformat).
    rewrite <- Htags, Hcol, Hn. cbn [andb app].
    rows_norm. reflexivity. }
  split; [apply gatherLoop_Sorted|].
  split.
  { unfold tags. rewrite gatherTags_loop, gatherLoop_Permutation.
    by rewrite (Horder (Tags row)). }
  split; [by rewrite Htags, (gatherTags_canonical rangeMap' _ Horder')|].
  split; [by apply formatResults_any_order|].
  split; [done|]. split; [done|].
  intros Hexample.
  assert (tags = ["a=1"; "b=2"]) as Hlist.
  { rewrite Htags, Hexample. by vm_compute. }
  assert (Tags row ≠ ∅) as Hne.
  { apply (nonEmpty_gatherTags rangeMap row Horder). fold tags.
    by rewrite Hlist. }
  split; [done|]. split.
  - intros Hformat. rewrite (Hcolumn Hformat Hne), Hlist.
    rewrite !elem_of_app. right. right. right. left.
    apply list_elem_of_singleton. reflexivity.
  - intros Hformat v Hv. rewrite (Hcsv Hformat Hne), Hlist.
    rewrite !elem_of_app. right. right. left.
    apply list_elem_of_fmap. by exists v.
Qed.

(** The two tags visited in either order, in both modes. *)
Lemma tags_sorted_by_composed_string_witness :
  formatResults Sample.noFloat map_to_list (Sample.shell "column")
    (mkResult [Sample.taggedRow] None) tabSep
  = ["tags: a=1, b=2"; "time" +:+ tabSep +:+ "value";
     "----" +:+ tabSep +:+ "-----"; "0" +:+ tabSep +:+ "1"; ""]
  ∧ formatResults Sample.noFloat (λ m, reverse (map_to_list m))
      (Sample.shell "column") (mkResult [Sample.taggedRow] None) tabSep
    = ["tags: a=1, b=2"; "time" +:+ tabSep +:+ "value";
       "----" +:+ tabSep +:+ "-----"; "0" +:+ tabSep +:+ "1"; ""]
  ∧ formatResults Sample.noFloat map_to_list (Sample.shell "csv")
      (mkResult [Sample.taggedRow] None) ","
    = ["tags,time,value"; "a=1,b=2,0,1"]
  ∧ reverse (map_to_list ({[ "b" := "2"; "a" := "1" ]} : gmap string string))
    ≠ map_to_list ({[ "b" := "2"; "a" := "1" ]} : gmap string string).
Proof.
  assert (rangeOrder map_to_list) as Hfwd by (by intros m).
  assert (rangeOrder (λ m, reverse (map_to_list m))) as Hbwd.
  { intros m. apply reverse_Permutation. }
  assert (Tags Sample.taggedRow ≠ ∅) as Hne by (by vm_compute).
  destruct (tags_sorted_by_composed_string Sample.noFloat map_to_list
              (λ m, reverse (map_to_list m)) (Sample.shell "column") tabSep
              [] [] Sample.taggedRow None Hfwd Hbwd)
    as (_ & _ & _ & Hsame & Hcolumn & _ & _).
  destruct (tags_sorted_by_composed_string Sample.noFloat map_to_list
              (λ m, reverse (map_to_list m)) (Sample.shell "csv") ","
              [] [] Sample.taggedRow None Hfwd Hbwd)
    as (_ & _ & _ & _ & _ & Hcsv & _).
  split; [|split; [|split]].
  - refine (eq_trans (Hcolumn eq_refl Hne) _). by vm_compute.
  - refine (eq_trans (eq_sym Hsame) _).
    refine (eq_trans (Hcolumn eq_refl Hne) _). by vm_compute.
  - refine (eq_trans (Hcsv eq_refl Hne) _). by vm_compute.
  - by vm_compute.
Defined.

(** C3: the underlines of column mode.  For every series of every result,
    with the rows of the series before it in front and those of the
    series after it behind, each side set off by an empty row when it has
    series: when the series has at least one tag, the optional name line
    and the tags line are followed by the header row and beneath it the
    dashed row, one run of dashes per column name, of that name's length,
    joined by the separator; when it has a name and no tags, the name
    line is followed by one dash line of the name line's length, then the
    header row with no dashed row beneath; when it has neither, the
    header row comes first and no underline of any kind is emitted.  In
    every case the data rows and an empty row follow. *)
Theorem column_underline {F : Type} (formatV : F → string)
    (rangeMap : gmap string string → list (string * string))
    (c : CommandLine) (separator : string) (front back : list (Row F))
    (row : Row F) (err : option string) :
  rangeOrder rangeMap →
  Format c = "column" →
  let tags := sortStrings (composed <$> map_to_list (Tags row)) in
  let nameLine := "name: " +:+ Name row in
  let header := GoStrings.Join (Columns row) separator in
  let underline :=
    GoStrings.Join
      ((λ columnName, GoStrings.Repeat "-" (String.length columnName))
         <$> Columns row) separator in
  let data :=
    (λ v, GoStrings.Join (interfaceToString formatV <$> v) separator)
      <$> Values row in
  let blank (series : list (Row F)) :=
    if nonEmpty series then [""] else [] in
  let before :=
    formatResults formatV rangeMap c (mkResult front err) separator
    ++ blank front in
  let after :=
    [""] ++ blank back
    ++ formatResults formatV rangeMap c (mkResult back err) separator in
  let out :=
    formatResults formatV rangeMap c (mkResult (front ++ row :: back) err)
      separator in
  (Tags row ≠ ∅ →
     out = before ++ (if named row then [nameLine] else [])
                  ++ ["tags: " +:+ GoStrings.Join tags ", "; header; underline]
                  ++ data ++ after)
  ∧ (Tags row = ∅ → Name row ≠ "" →
       out = before
             ++ [nameLine; GoStrings.Repeat "-" (String.length nameLine); header]
             ++ data ++ after)
  ∧ (Tags row = ∅ → Name row = "" → out = before ++ [header] ++ data ++ after).
Proof.
  intros Horder Hformat tags nameLine header underline data blank before after
    out.
  destruct (isColumn_true _ Hformat) as [Hcol Hcsv].
  assert (out = before
    ++ (if named row then [nameLine] else [])
    ++ (if named row && (length tags =? 0)%nat
        then [GoStrings.Repeat "-" (String.length nameLine)] else [])
    ++ (if nonEmpty tags then ["tags: " +:+ GoStrings.Join tags ", "] else [])
    ++ [header]
    ++ (if nonEmpty tags then [underline] else [])
    ++ data ++ after) as Hout.
  { unfold out. rewrite formatResults_around.
    rewrite (formatSeries_column formatV rangeMap c separator row Horder Hformat).
    rewrite Hcol. cbn [andb]. unfold before, after.
    rows_norm. reflexivity. }
  pose proof (nonEmpty_gatherTags rangeMap row Horder) as Htags.
  rewrite (gatherTags_canonical rangeMap _ Horder) in Htags. fold tags in Htags.
  rewrite Hout, (nonEmpty_length tags). split; [|split].
  - intros Hne. apply Htags in Hne. rewrite nonEmpty_length in Hne.
    apply negb_true_iff in Hne. rewrite Hne, andb_false_r. simpl.
    by destruct (named row).
  - intros Hempty Hname.
    assert (nonEmpty tags = false) as Hno.
    { apply not_true_is_false. intros E. by apply Htags in E. }
    rewrite nonEmpty_length in Hno. apply negb_false_iff in Hno.
    apply named_true in Hname. by rewrite Hno, Hname.
  - intros Hempty Hname.
    assert (nonEmpty tags = false) as Hno.
    { apply not_true_is_false. intros E. by apply Htags in E. }
    rewrite nonEmpty_length in Hno. apply negb_false_iff in Hno.
    apply named_false in Hname. by rewrite Hno, Hname.
Qed.

(** A result of three series: one with a name and a tag, one with a name
    only, one with neither. *)
Lemma column_underline_witness :
  formatResults Sample.noFloat map_to_list (Sample.shell "column")
    (mkResult [Sample.cpuRow; Sample.namedRow; Sample.bareRow] None) tabSep
  = ["name: cpu"; "tags: host=a"; "time" +:+ tabSep +:+ "value";
     "----" +:+ tabSep +:+ "-----"; "0" +:+ tabSep +:+ "1"; "";
     "";
     "name: cpu"; "---------"; "time" +:+ tabSep +:+ "value";
     "0" +:+ tabSep +:+ "1"; "";
     "";
     "time" +:+ tabSep +:+ "value"; "0" +:+ tabSep +:+ "1"; ""]
  ∧ formatResults Sample.noFloat map_to_list (Sample.shell "column")
      (mkResult [Sample.cpuRow] None) tabSep
    = ["name: cpu"; "tags: host=a"; "time" +:+ tabSep +:+ "value";
       "----" +:+ tabSep +:+ "-----"; "0" +:+ tabSep +:+ "1"; ""]
  ∧ formatResults Sample.noFloat map_to_list (Sample.shell "column")
      (mkResult [Sample.bareRow] None) tabSep
    = ["time" +:+ tabSep +:+ "value"; "0" +:+ tabSep +:+ "1"; ""].
Proof.
  assert (rangeOrder map_to_list) as Horder by (by intros m).
  split; [|split].
  - destruct (column_underline Sample.noFloat map_to_list
                (Sample.shell "column") tabSep [Sample.cpuRow] [Sample.bareRow]
                Sample.namedRow None Horder eq_refl) as (_ & Hnamed & _).
    refine (eq_trans (Hnamed eq_refl _) _); [discriminate|]. by vm_compute.
  - destruct (column_underline Sample.noFloat map_to_list
                (Sample.shell "column") tabSep [] [] Sample.cpuRow None Horder
                eq_refl) as (Htagged & _ & _).
    refine (eq_trans (Htagged _) _); by vm_compute.
  - destruct (column_underline Sample.noFloat map_to_list
                (Sample.shell "column") tabSep [] [] Sample.bareRow None Horder
                eq_refl) as (_ & _ & Hbare).
    refine (eq_trans (Hbare eq_refl eq_refl) _). by vm_compute.
Defined.



(** C6: in column mode a result holding one nameless, tagless series with
    the columns time and value and the single row 0, 1 is formatted as
    exactly three lines: time, tab, value; 0, tab, 1; and an empty line. *)
Theorem column_bare_series_three_lines {F : Type} (formatV : F → string)
    (rangeMap : gmap string string → list (string * string))
    (c : CommandLine) (err : option string) :
  rangeOrder rangeMap →
  Format c = "column" →
  formatResults formatV rangeMap c
    (mkResult [mkRow "" ∅ ["time"; "value"] [[VInt 0; VInt 1]]] err) tabSep
  = ["time" +:+ tabSep +:+ "value"; "0" +:+ tabSep +:+ "1"; ""].
Proof.
  intros Horder Hformat.
  destruct (isColumn_true _ Hformat) as [Hcol Hcsv].
  rewrite formatResults_concat. cbn [Series imap concat].
  rewrite formatSeries_rows. cbn [Tags Name Columns Values].
  assert (gatherTags rangeMap ∅ = []) as -> by (by apply gatherTags_nil).
  rewrite Hcol, (headerNames_column c _ [] Hcsv).
  rewrite (fmap_ext_all _ _ _
             (λ v, valueRow_column formatV c tabSep _ [] v Hcsv)).
  reflexivity.
Qed.

Lemma column_bare_series_three_lines_witness :
  formatResults Sample.noFloat map_to_list (Sample.shell "column")
    (mkResult [Sample.bareRow] None) tabSep
  = ["time" +:+ tabSep +:+ "value"; "0" +:+ tabSep +:+ "1"; ""].
Proof.
  apply (column_bare_series_three_lines Sample.noFloat map_to_list
           (Sample.shell "column") None); [by intros m | reflexivity].
Defined.

(** ** Converting a scalar *)

Lemma string_of_uint_digits d :
  every isDigit (NilEmpty.string_of_uint d) = true.
Proof. induction d; simpl; auto. Qed.

Lemma NilZero_string_of_uint_digits d :
  every isDigit (NilZero.string_of_uint d) = true.
Proof. destruct d; try apply string_of_uint_digits. reflexivity. Qed.

Lemma digits_no_point s : every isDigit s = true → occurs "." s = false.
Proof.
  induction s as [|ch s IH]; [done|]. simpl.
  intros [Hch Hs]%andb_true_iff. rewrite (IH Hs), orb_false_r.
  destruct (Ascii.eqb_spec ch "."); [by subst|done].
Qed.

(** [%d] writes an optional minus sign and decimal digits, and reading
    them back gives the number. *)
Lemma formatInt_decimal n :
  (every isDigit (formatInt n) = true
   ∨ ∃ digits, formatInt n = String Char.minus digits
               ∧ every isDigit digits = true)
  ∧ Z.of_int <$> NilZero.int_of_string (formatInt n) = Some n.
Proof.
  unfold formatInt. split.
  - destruct n as [|p|p]; simpl.
    + by left.
    + left. apply NilZero_string_of_uint_digits.
    + right. eexists. split; [reflexivity|].
      apply NilZero_string_of_uint_digits.
  - rewrite NilZero.isi.
    + simpl. by rewrite DecimalZ.of_to.
    + destruct n as [|p|p]; simpl; try done.
      intros [= H]. by apply DecimalPos.Unsigned.to_uint_nonnil in H.
    + destruct n as [|p|p]; simpl; try done.
      intros [= H]. by apply DecimalPos.Unsigned.to_uint_nonnil in H.
Qed.

Lemma formatInt_no_point n : occurs "." (formatInt n) = false.
Proof.
  destruct (formatInt_decimal n) as [[Hd|(digits & -> & Hd)] _].
  - by apply digits_no_point.
  - simpl. by apply digits_no_point.
Qed.

(** C5: the conversion of a row value to text.  [interfaceToString] turns
    nil into the empty string, which is neither the word null nor what
    json mode writes for nil; a bool into true or false; and an integer
    into its decimal representation, an optional minus sign followed by
    digits only, which reads back as the same number and never contains a
    decimal point. *)
Theorem interfaceToString_scalars {F : Type} (formatV : F → string) :
  interfaceToString formatV VNil = ""
  ∧ interfaceToString formatV VNil ≠ "null"
  ∧ interfaceToString formatV VNil ≠ jsonNull
  ∧ interfaceToString formatV (VBool true) = "true"
  ∧ interfaceToString formatV (VBool false) = "false"
  ∧ ∀ n : Z,
      occurs "." (interfaceToString formatV (VInt n)) = false
      ∧ (every isDigit (interfaceToString formatV (VInt n)) = true
         ∨ ∃ digits, interfaceToString formatV (VInt n)
                     = String Char.minus digits
                     ∧ every isDigit digits = true)
      ∧ Z.of_int <$> NilZero.int_of_string (interfaceToString formatV (VInt n))
        = Some n.
Proof.
  repeat split; try done.
  - apply formatInt_no_point.
  - apply formatInt_decimal.
  - apply formatInt_decimal.
Qed.

(** ** Writing a response *)

Lemma foldl_app_strings {A : Type} (g : A → string) (l : list A) : ∀ w,
  foldl (λ w x, w +:+ g x) w l = w +:+ concatStrings (g <$> l).
Proof.
  induction l as [|x l IH]; intros w; simpl.
  - by rewrite app_empty_r.
  - rewrite IH. cbn [concatStrings foldr]. by rewrite app_assoc'.
Qed.

Lemma concatStrings_app l1 l2 :
  concatStrings (l1 ++ l2) = concatStrings l1 +:+ concatStrings l2.
Proof.
  induction l1 as [|x l1 IH]; [done|].
  cbn [app concatStrings foldr]. fold (concatStrings (l1 ++ l2)).
  fold (concatStrings l1). by rewrite IH, app_assoc'.
Qed.

(** A loop over the results with a loop over their rows inside, both
    writing to the same writer. *)
Lemma foldl_rows_written {A B : Type} (rowsOf : A → list B) (g : B → string)
    (results : list A) : ∀ w,
  foldl (λ w result, foldl (λ w r, w +:+ g r) w (rowsOf result)) w results
  = w +:+ concatStrings
            ((λ result, concatStrings (g <$> rowsOf result)) <$> results).
Proof.
  induction results as [|result results IH]; intros w; simpl.
  - by rewrite app_empty_r.
  - rewrite IH, foldl_app_strings. cbn [concatStrings foldr].
    by rewrite app_assoc'.
Qed.

(** C9: the outcomes of formatting, format by format.  In json mode the
    whole response is serialized once, by [MarshalIndent] with an empty
    prefix and an indent of four spaces when the pretty flag is set and
    by [Marshal] otherwise; when that succeeds the document and a newline
    are written, and when it fails the message saying so, with the error,
    is written and nothing else.  In csv mode what is written is what the
    csv writer emits for the rows of [formatResults], result by result
    and row by row, each row split at its tabs into one record; in column
    mode it is, result by result, what the tabwriter emits on standard
    output for the rows of [formatResults], each followed by a newline.
    Neither involves a serializer and neither writes a message of its
    own.  For every other format the message naming the unknown format
    is written and nothing else, whatever the serializers would
    return. *)
Theorem FormatResponse_outcomes {F : Type} (formatV : F → string)
    (rangeMap : gmap string string → list (string * string))
    (Marshal : Response F → string + string)
    (MarshalIndent : Response F → string → string → string + string)
    (csvRecord : list string → string) (tabwriterFlush : string → string)
    (formatQ : string → string) (c : CommandLine) (response : Response F) :
  let serialized :=
    if Pretty c then MarshalIndent response "" (GoStrings.Repeat " " 4)
    else Marshal response in
  let output :=
    FormatResponse formatV rangeMap Marshal MarshalIndent csvRecord
      tabwriterFlush formatQ c response in
  let rowsOf (result : Result F) :=
    formatResults formatV rangeMap c result tabSep in
  (Format c = "json" → ∀ data, serialized = inl data →
     output = mkOutput (data +:+ nl) "")
  ∧ (Format c = "json" → ∀ err, serialized = inr err →
       output = mkOutput ("Unable to parse json: " +:+ err +:+ nl) "")
  ∧ (Format c = "csv" →
       output
       = mkOutput
           (concatStrings
              ((λ result,
                  concatStrings
                    ((λ r, csvRecord (GoStrings.Split r Char.tab))
                       <$> rowsOf result))
                 <$> Results response)) "")
  ∧ (Format c = "column" →
       output
       = mkOutput ""
           (concatStrings
              ((λ result,
                  tabwriterFlush
                    (concatStrings ((λ r, r +:+ nl) <$> rowsOf result)))
                 <$> Results response)))
  ∧ (Format c ≠ "json" → Format c ≠ "csv" → Format c ≠ "column" →
       output
       = mkOutput ("Unknown output format " +:+ formatQ (Format c) +:+ "."
                   +:+ nl) "").
Proof.
  intros serialized output rowsOf. unfold output, FormatResponse.
  split; [|split; [|split; [|split]]].
  - intros -> data Hdata. simpl. unfold writeJSON.
    change (GoStrings.Repeat " " 4) with "    " in serialized.
    fold serialized. by rewrite Hdata.
  - intros -> err Herr. simpl. unfold writeJSON.
    change (GoStrings.Repeat " " 4) with "    " in serialized.
    fold serialized. by rewrite Herr.
  - intros Hformat. rewrite Hformat. cbn [String.eqb Ascii.eqb Bool.eqb].
    f_equal. unfold writeCSV.
    by rewrite (foldl_rows_written rowsOf
                  (λ r, csvRecord (GoStrings.Split r Char.tab))).
  - intros Hformat. rewrite Hformat. cbn [String.eqb Ascii.eqb Bool.eqb].
    f_equal. unfold writeColumns.
    rewrite (foldl_app_strings
               (λ result,
                  tabwriterFlush
                    (foldl (λ w r, w +:+ r +:+ nl) "" (rowsOf result)))).
    change ("" +:+ ?text) with text. f_equal. apply fmap_ext_all.
    intros result. by rewrite (foldl_app_strings (λ r, r +:+ nl)).
  - intros Hjson Hcsv Hcolumn.
    apply String.eqb_neq in Hjson, Hcsv, Hcolumn.
    by rewrite Hjson, Hcsv, Hcolumn.
Qed.

(** A serializer that fails and one that succeeds; the csv and column
    examples with writers that show what they were given; a format the
    shell does not know. *)
Lemma FormatResponse_outcomes_witness :
  FormatResponse Sample.noFloat map_to_list
    (λ _, inr "unsupported value") (λ _ _ _, inr "unsupported value")
    (λ _, "") id quoted (Sample.shell "json") (mkResponse [] None)
  = mkOutput ("Unable to parse json: unsupported value" +:+ nl) ""
  ∧ FormatResponse Sample.noFloat map_to_list
      (λ _, inl "{}") (λ _ _ _, inl "{}")
      (λ _, "") id quoted (Sample.shell "json") (mkResponse [] None)
    = mkOutput ("{}" +:+ nl) ""
  ∧ FormatResponse Sample.noFloat map_to_list
      (λ _, inr "unsupported value") (λ _ _ _, inr "unsupported value")
      (λ fields, GoStrings.Join fields "|" +:+ nl) id quoted
      (Sample.shell "csv") (mkResponse [mkResult [Sample.cpuRow] None] None)
    = mkOutput ("name|tags|time|value" +:+ nl +:+ "cpu|host=a|0|1" +:+ nl) ""
  ∧ FormatResponse Sample.noFloat map_to_list
      (λ _, inr "unsupported value") (λ _ _ _, inr "unsupported value")
      (λ _, "") (λ text, "<" +:+ text +:+ ">") quoted
      (Sample.shell "column")
      (mkResponse [mkResult [Sample.bareRow] None; mkResult [] None] None)
    = mkOutput ""
        ("<time" +:+ tabSep +:+ "value" +:+ nl +:+ "0" +:+ tabSep +:+ "1"
         +:+ nl +:+ nl +:+ "><>")
  ∧ FormatResponse Sample.noFloat map_to_list
      (λ _, inl "{}") (λ _ _ _, inl "{}")
      (λ _, "") id quoted (Sample.shell "xml") (mkResponse [] None)
    = mkOutput ("Unknown output format " +:+ quoted "xml" +:+ "." +:+ nl) "".
Proof.
  split; [|split; [|split; [|split]]].
  - destruct (FormatResponse_outcomes Sample.noFloat map_to_list
                (λ _, inr "unsupported value")
                (λ _ _ _, inr "unsupported value")
                (λ _, "") id quoted (Sample.shell "json") (mkResponse [] None))
      as (_ & Hfail & _).
    apply (Hfail eq_refl "unsupported value" eq_refl).
  - destruct (FormatResponse_outcomes Sample.noFloat map_to_list
                (λ _, inl "{}") (λ _ _ _, inl "{}")
                (λ _, "") id quoted (Sample.shell "json") (mkResponse [] None))
      as (Hok & _).
    apply (Hok eq_refl "{}" eq_refl).
  - destruct (FormatResponse_outcomes Sample.noFloat map_to_list
                (λ _, inr "unsupported value")
                (λ _ _ _, inr "unsupported value")
                (λ fields, GoStrings.Join fields "|" +:+ nl) id quoted
                (Sample.shell "csv")
                (mkResponse [mkResult [Sample.cpuRow] None] None))
      as (_ & _ & Hcsv & _).
    refine (eq_trans (Hcsv eq_refl) _). by vm_compute.
  - destruct (FormatResponse_outcomes Sample.noFloat map_to_list
                (λ _, inr "unsupported value")
                (λ _ _ _, inr "unsupported value")
                (λ _, "") (λ text, "<" +:+ text +:+ ">") quoted
                (Sample.shell "column")
                (mkResponse [mkResult [Sample.bareRow] None; mkResult [] None]
                   None))
      as (_ & _ & _ & Hcolumn & _).
    refine (eq_trans (Hcolumn eq_refl) _). by vm_compute.
  - destruct (FormatResponse_outcomes Sample.noFloat map_to_list
                (λ _, inl "{}") (λ _ _ _, inl "{}")
                (λ _, "") id quoted (Sample.shell "xml") (mkResponse [] None))
      as (_ & _ & _ & _ & Hunknown).
    refine (eq_trans (Hunknown _ _ _) _); by vm_compute.
Defined.

(** The shell as [New] returns it has the empty string for its format.
    Formatting a response with it writes a message about the format,
    though both serializers succeed and json mode is not even chosen. *)
Lemma unknown_format_is_reported :
  Format (New "0.9") = ""
  ∧ FormatResponse Sample.noFloat map_to_list
      (λ _, inl "{}") (λ _ _ _, inl "{}") (λ _, "") id quoted
      (New "0.9") (mkResponse [mkResult [Sample.bareRow] None] None)
    = mkOutput ("Unknown output format " +:+ quoted "" +:+ "." +:+ nl) "".
Proof. split; reflexivity. Qed.

(** The csv example, as handed to the csv writer: one record of four
    fields for the header and one for the data row. *)
Lemma writeCSV_example {F : Type} (formatV : F → string)
    (rangeMap : gmap string string → list (string * string))
    (csvRecord : list string → string) (c : CommandLine) (err : option string) :
  rangeOrder rangeMap →
  Format c = "csv" →
  writeCSV formatV rangeMap csvRecord c
    (mkResponse
       [mkResult [mkRow "cpu" {[ "host" := "a" ]} ["time"; "value"]
                    [[VInt 0; VInt 1]]] None] err)
  = csvRecord ["name"; "tags"; "time"; "value"]
    +:+ csvRecord ["cpu"; "host=a"; "0"; "1"].
Proof.
  intros Horder Hformat.
  destruct (isCSV_true _ Hformat) as [Hcsv Hcol].
  match goal with |- context [mkResult [?r] _] => set (row := r) end.
  unfold writeCSV. cbn [Results foldl].
  rewrite formatResults_concat. cbn [Series imap concat].
  rewrite formatSeries_rows.
  rewrite (gatherTags_canonical rangeMap (Tags row) Horder).
  assert (sortStrings (composed <$> map_to_list (Tags row)) = ["host=a"])
    as -> by (by vm_compute).
  rewrite Hcol.
  rewrite (headerNames_csv c row ["host=a"] Hcsv eq_refl eq_refl).
  rewrite (fmap_ext_all _ _ _
             (λ v, valueRow_csv formatV c tabSep row ["host=a"] v Hcsv
                     eq_refl eq_refl)).
  reflexivity.
Qed.

(** The column example, as written into the tabwriter and flushed to
    standard output. *)
Lemma writeColumns_example {F : Type} (formatV : F → string)
    (rangeMap : gmap string string → list (string * string))
    (tabwriterFlush : string → string) (c : CommandLine)
    (err : option string) :
  rangeOrder rangeMap →
  Format c = "column" →
  writeColumns formatV rangeMap tabwriterFlush c
    (mkResponse
       [mkResult [mkRow "" ∅ ["time"; "value"] [[VInt 0; VInt 1]]] None] err)
  = tabwriterFlush ("time" +:+ tabSep +:+ "value" +:+ nl
                    +:+ "0" +:+ tabSep +:+ "1" +:+ nl +:+ nl).
Proof.
  intros Horder Hformat.
  destruct (isColumn_true _ Hformat) as [Hcol Hcsv].
  unfold writeColumns. cbn [Results foldl].
  rewrite formatResults_concat. cbn [Series imap concat].
  rewrite formatSeries_rows. cbn [Tags Name Columns Values].
  assert (gatherTags rangeMap ∅ = []) as -> by (by apply gatherTags_nil).
  rewrite Hcol, (headerNames_column c _ [] Hcsv).
  rewrite (fmap_ext_all _ _ _
             (λ v, valueRow_column formatV c tabSep _ [] v Hcsv)).
  reflexivity.
Qed.

(** * Further properties of the parser *)

Lemma cutPrefix_Some p : ∀ s r,
  GoStrings.cutPrefix p s = Some r → s = p +:+ r.
Proof.
  induction p as [|ch p IH]; intros [|c s] r H; simplify_eq/=; try done.
  destruct (Ascii.eqb_spec ch c) as [->|]; [|done].
  rewrite app_cons. f_equal. by apply IH.
Qed.

Lemma TrimPrefix_suffix s p : ∃ front, s = front +:+ GoStrings.TrimPrefix s p.
Proof.
  unfold GoStrings.TrimPrefix.
  destruct (GoStrings.cutPrefix p s) as [r|] eqn:Hcut.
  - exists p. by apply cutPrefix_Some.
  - by exists "".
Qed.

(** Every string splits into its longest run of identifier bytes and a
    rest that cannot continue an identifier. *)
Lemma identifier_run s :
  ∃ run rest, s = run +:+ rest
    ∧ every (λ c, negb (isNotIdentChar c)) run = true
    ∧ endsIdentifier rest = true.
Proof.
  induction s as [|ch s (run & rest & -> & Hrun & Hrest)].
  - by exists "", "".
  - destruct (isNotIdentChar ch) eqn:Hch.
    + by exists "", (String ch (run +:+ rest)).
    + exists (String ch run), rest. simpl. by rewrite Hch.
Qed.

(** X1: an unquoted identifier is read whole.  After any leading
    whitespace, an identifier (a letter or underscore followed by letters,
    digits and underscores) that is followed by the end of the input or by
    a byte that cannot continue it is returned as written, with everything
    after it as remainder. *)
Theorem unquoted_identifier_read_whole (ws ident rest : string) :
  every isWhitespace ws = true →
  unquotedIdentifier ident = true →
  endsIdentifier rest = true →
  parseNextIdentifier (ws +:+ ident +:+ rest) = (ident, rest).
Proof.
  intros Hws Hident Hrest. rewrite parseNextIdentifier_skip by done.
  by apply parseNextIdentifier_unquoted.
Qed.

Lemma unquoted_identifier_read_whole_witness :
  parseNextIdentifier "  cpu_load1,host=a value=1"
  = ("cpu_load1", ",host=a value=1").
Proof.
  apply (unquoted_identifier_read_whole "  " "cpu_load1" ",host=a value=1");
    reflexivity.
Defined.

(** X2: whenever the first byte after the leading whitespace is a letter
    or an underscore, the result splits the whitespace-stripped input in
    two: the identifier, which is well formed, and the remainder, which
    is empty or begins with a byte that cannot continue an identifier. *)
Theorem unquoted_path_splits_input (stmt : string) (ch : ascii) (tail : string) :
  skipWhitespace stmt = String ch tail →
  isIdentFirstChar ch = true →
  unquotedIdentifier (parseNextIdentifier stmt).1 = true
  ∧ skipWhitespace stmt
    = (parseNextIdentifier stmt).1 +:+ (parseNextIdentifier stmt).2
  ∧ endsIdentifier (parseNextIdentifier stmt).2 = true.
Proof.
  intros Hskip Hch. rewrite parseNextIdentifier_skipWhitespace, Hskip.
  destruct (identifier_run tail) as (run & rest & -> & Hrun & Hrest).
  rewrite <- app_cons.
  rewrite (parseNextIdentifier_unquoted (String ch run) rest);
    [|by simpl; rewrite Hch|done].
  simpl. by rewrite Hch, Hrun.
Qed.

Lemma unquoted_path_splits_input_witness :
  skipWhitespace " mydb.rp value"
  = (parseNextIdentifier " mydb.rp value").1
    +:+ (parseNextIdentifier " mydb.rp value").2.
Proof.
  destruct (unquoted_path_splits_input " mydb.rp value" "m" "ydb.rp value"
              eq_refl eq_refl) as (_ & Hsplit & _).
  exact Hsplit.
Defined.

Lemma parseNextIdentifier_suffix stmt :
  ∃ front, stmt = front +:+ (parseNextIdentifier stmt).2.
Proof.
  induction stmt as [|ch stmt IH]; [by exists ""|]. simpl.
  destruct (isWhitespace ch).
  { destruct IH as [front Hfront]. exists (String ch front).
    by rewrite app_cons, <- Hfront. }
  destruct (isIdentFirstChar ch).
  { unfold parseUnquotedIdentifier.
    destruct (GoStrings.FieldsFunc _ _ _) as [|w ws]; [by exists ""|].
    apply TrimPrefix_suffix. }
  destruct (Ascii.eqb ch Char.dquote); [|by exists ""].
  unfold parseDoubleQuotedIdentifier.
  destruct (GoStrings.FieldsFunc _ _ _) as [|w ws]; [by exists ""|].
  apply TrimPrefix_suffix.
Qed.

(** X3: the remainder is always a suffix of the input, for every input:
    the parser never hands back text that was not there, and the
    remainder is never longer than the input. *)
Theorem remainder_is_suffix (stmt : string) :
  (∃ front, stmt = front +:+ (parseNextIdentifier stmt).2)
  ∧ String.length (parseNextIdentifier stmt).2 ≤ String.length stmt.
Proof.
  destruct (parseNextIdentifier_suffix stmt) as [front Hfront].
  split; [by exists front|].
  rewrite Hfront at 2. rewrite length_app'. lia.
Qed.

Lemma HasPrefix_tail s ch :
  GoStrings.HasPrefix s (String ch "") = true →
  s = String ch (GoStrings.tail s).
Proof.
  destruct s as [|c s]; [done|]. unfold GoStrings.HasPrefix. simpl.
  by destruct (Ascii.eqb_spec ch c) as [->|].
Qed.

Lemma CommandLine_eta c :
  setRetentionPolicy (RetentionPolicy c) (setDatabase (Database c) c) = c.
Proof. by destruct c. Qed.

Lemma parseInto_receiver c stmt :
  receiver (parseInto c stmt)
  = setRetentionPolicy (RetentionPolicy (receiver (parseInto c stmt)))
      (setDatabase (Database (receiver (parseInto c stmt))) c).
Proof.
  unfold parseInto. destruct (parseNextIdentifier stmt) as [ident rest].
  destruct (GoStrings.HasPrefix rest ".").
  - destruct (parseNextIdentifier (GoStrings.tail rest)) as [ident2 rest2].
    destruct (GoStrings.HasPrefix rest2 " "); simpl; by destruct c.
  - destruct (GoStrings.HasPrefix rest " "); simpl; by destruct c.
Qed.

(** X4: the frame of [parseInto].  For every statement, the receiver
    afterwards differs from the receiver before in the database and the
    retention policy at most, and the text returned is a suffix of the
    statement. *)
Theorem parseInto_frame (c : CommandLine) (stmt : string) :
  receiver (parseInto c stmt)
  = setRetentionPolicy (RetentionPolicy (receiver (parseInto c stmt)))
      (setDatabase (Database (receiver (parseInto c stmt))) c)
  ∧ ∃ front, stmt = front +:+ returned (parseInto c stmt).
Proof.
  unfold parseInto.
  destruct (parseNextIdentifier_suffix stmt) as [front1 Hfront1].
  destruct (parseNextIdentifier stmt) as [ident rest]. simpl in Hfront1.
  destruct (GoStrings.HasPrefix rest ".") eqn:Hdot.
  - apply HasPrefix_tail in Hdot.
    destruct (parseNextIdentifier_suffix (GoStrings.tail rest))
      as [front2 Hfront2].
    destruct (parseNextIdentifier (GoStrings.tail rest)) as [ident2 rest2].
    simpl in Hfront2.
    destruct (GoStrings.HasPrefix rest2 " ") eqn:Hsp; simpl.
    + split; [by destruct c|]. apply HasPrefix_tail in Hsp.
      exists (front1 +:+ "." +:+ front2 +:+ " ").
      rewrite Hfront1, Hdot, Hfront2 at 1. rewrite Hsp at 1.
      by rewrite !app_assoc'.
    + split; [by destruct c|].
      exists (front1 +:+ "." +:+ front2).
      rewrite Hfront1, Hdot, Hfront2 at 1. by rewrite !app_assoc'.
  - destruct (GoStrings.HasPrefix rest " ") eqn:Hsp; simpl.
    + split; [by destruct c|]. apply HasPrefix_tail in Hsp.
      exists (front1 +:+ " "). rewrite Hfront1 at 1. rewrite Hsp at 1.
      by rewrite !app_assoc'.
    + split; [by destruct c|]. by exists front1.
Qed.

(** * Further properties of the formatter *)

Lemma occurs_app ch s t : occurs ch (s +:+ t) = occurs ch s || occurs ch t.
Proof.
  induction s as [|c s IH]; [done|]. rewrite app_cons. simpl.
  by rewrite IH, orb_assoc.
Qed.

Lemma Split_without sep s : occurs sep s = false → GoStrings.Split s sep = [s].
Proof.
  induction s as [|ch s IH]; [done|]. simpl.
  intros [Hch Hs]%orb_false_iff. by rewrite Hch, (IH Hs).
Qed.

Lemma Split_at sep s t :
  occurs sep s = false →
  GoStrings.Split (s +:+ String sep t) sep = s :: GoStrings.Split t sep.
Proof.
  induction s as [|ch s IH]; intros Hs.
  - change ("" +:+ String sep t) with (String sep t). simpl.
    by rewrite Ascii.eqb_refl.
  - simpl in Hs. apply orb_false_iff in Hs as [Hch Hs].
    rewrite app_cons. simpl. by rewrite Hch, (IH Hs).
Qed.

Lemma Split_Join sep e l :
  Forall (λ x, occurs sep x = false) (e :: l) →
  GoStrings.Split (GoStrings.Join (e :: l) (String sep "")) sep = e :: l.
Proof.
  revert e. induction l as [|e' l IH]; intros e Hall.
  - apply Split_without. by apply Forall_cons in Hall as [? _].
  - apply Forall_cons in Hall as [He Hall].
    change (GoStrings.Join (e :: e' :: l) (String sep ""))
      with (e +:+ String sep "" +:+ GoStrings.Join (e' :: l) (String sep "")).
    change (String sep "" +:+ ?t) with (String sep t).
    by rewrite Split_at, IH.
Qed.

Lemma Split_Join_fields sep fields :
  Forall (λ field, occurs sep field = false) fields →
  GoStrings.Split (GoStrings.Join fields (String sep "")) sep
  = asRecord fields.
Proof.
  destruct fields as [|e l]; [done|]. apply Split_Join.
Qed.

(** X5: splitting undoes joining.  When no field contains the separator
    byte, splitting the joined row at that byte gives the fields back;
    the one exception is the empty list of fields, whose join is the
    empty row and splits into a single empty field. *)
Theorem Split_undoes_Join (sep : ascii) (fields : list string) :
  Forall (λ field, occurs sep field = false) fields →
  GoStrings.Split (GoStrings.Join fields (String sep "")) sep
  = match fields with
    | [] => [""]
    | _ => fields
    end.
Proof. apply Split_Join_fields. Qed.

Lemma Split_undoes_Join_witness :
  GoStrings.Split (GoStrings.Join ["cpu"; "host=a"; ""; "1"] tabSep) Char.tab
  = ["cpu"; "host=a"; ""; "1"].
Proof.
  apply (Split_undoes_Join Char.tab ["cpu"; "host=a"; ""; "1"]).
  repeat constructor.
Defined.

Section ResultShape.
Context {F : Type} (formatV : F → string).
Context (rangeMap : gmap string string → list (string * string)).
Implicit Types (c : CommandLine) (row : Row F) (series : list (Row F)).

Lemma formatSeries_length_csv c separator i row :
  isColumn c = false →
  length (formatSeries formatV rangeMap c separator [] i row)
  = S (length (Values row)).
Proof.
  intros Hcol. rewrite formatSeries_rows, Hcol, andb_false_r. simpl.
  by rewrite length_app, length_fmap, Nat.add_0_r.
Qed.

Lemma blocks_length_csv c separator series : ∀ i,
  isColumn c = false →
  length (concat (imap (λ k row, formatSeries formatV rangeMap c separator
                                   [] (i + k) row) series))
  = sum_list ((λ row, S (length (Values row))) <$> series).
Proof.
  induction series as [|row series IH]; intros i Hcol; [done|].
  rewrite fmap_cons. cbn [imap concat sum_list sum_list_with].
  rewrite length_app, formatSeries_length_csv by done.
  rewrite <- (IH (S i) Hcol). do 3 f_equal.
  apply imap_ext. intros k r _. simpl. f_equal. lia.
Qed.

End ResultShape.

(** X6: csv mode emits, for every series of a result, one header row and
    one row per value row, and nothing else: the number of rows is the
    sum over the series of one plus the number of value rows. *)
Theorem csv_row_count {F : Type} (formatV : F → string)
    (rangeMap : gmap string string → list (string * string))
    (c : CommandLine) (result : Result F) (separator : string) :
  Format c = "csv" →
  length (formatResults formatV rangeMap c result separator)
  = sum_list ((λ row, S (length (Values row))) <$> Series result).
Proof.
  intros Hformat. destruct (isCSV_true _ Hformat) as [_ Hcol].
  rewrite formatResults_concat.
  by apply (blocks_length_csv formatV rangeMap c separator _ 0).
Qed.

Lemma csv_row_count_witness :
  length (formatResults Sample.noFloat map_to_list (Sample.shell "csv")
            (mkResult [Sample.cpuRow; Sample.bareRow] None) ",")
  = 4.
Proof.
  rewrite (csv_row_count Sample.noFloat map_to_list (Sample.shell "csv")
             (mkResult [Sample.cpuRow; Sample.bareRow] None) "," eq_refl).
  reflexivity.
Defined.

(** X7: a result is formatted series by series.  Formatting the series
    [front ++ back] gives the rows of [front] followed by the rows of
    [back]; in column mode, when neither is empty, one more empty row
    stands between them, which together with the empty row closing every
    series leaves two empty rows between consecutive series. *)
Theorem formatResults_app {F : Type} (formatV : F → string)
    (rangeMap : gmap string string → list (string * string))
    (c : CommandLine) (front back : list (Row F)) (err : option string)
    (separator : string) :
  formatResults formatV rangeMap c (mkResult (front ++ back) err) separator
  = formatResults formatV rangeMap c (mkResult front err) separator
    ++ (if isColumn c && nonEmpty front && nonEmpty back then [""] else [])
    ++ formatResults formatV rangeMap c (mkResult back err) separator.
Proof.
  rewrite !formatResults_concat. cbn [Series].
  rewrite imap_app, concat_app. f_equal.
  destruct front as [|row front].
  { simpl. by rewrite andb_false_r. }
  rewrite andb_true_r.
  rewrite <- (blocks_after_first formatV rangeMap c separator back
                (length (row :: front))) by (simpl; lia).
  done.
Qed.

(** ** What reaches the csv writer *)

Section CsvRecords.
Context {F : Type} (formatV : F → string).
Context (rangeMap : gmap string string → list (string * string)).
Context (csvRecord : list string → string).
Implicit Types (c : CommandLine) (row : Row F).

Lemma valueRow_valueFields c separator row tags v :
  valueRow formatV c separator row tags v
  = GoStrings.Join (valueFields formatV c row tags v) separator.
Proof. reflexivity. Qed.

(** In csv mode the rows of a series are its joined records. *)
Lemma formatSeries_records c separator i row :
  isColumn c = false →
  formatSeries formatV rangeMap c separator [] i row
  = (λ fields, GoStrings.Join fields separator)
      <$> seriesRecords formatV rangeMap c row.
Proof.
  intros Hcol. unfold seriesRecords. rewrite fmap_cons.
  rewrite formatSeries_rows, Hcol, andb_false_r. cbn [andb app].
  rewrite app_nil_r. f_equal. by rewrite <- list_fmap_compose.
Qed.

Lemma formatResults_records c (result : Result F) separator :
  isColumn c = false →
  formatResults formatV rangeMap c result separator
  = (λ fields, GoStrings.Join fields separator)
      <$> concat (seriesRecords formatV rangeMap c <$> Series result).
Proof.
  intros Hcol. rewrite formatResults_concat.
  induction (Series result) as [|row series IH] using rev_ind; [done|].
  rewrite imap_app, fmap_app, !concat_app, fmap_app, IH. f_equal.
  simpl. rewrite !app_nil_r. by apply formatSeries_records.
Qed.

Lemma csv_rows_written (records : list (list string)) w :
  tabFree records →
  foldl (λ w r, w +:+ csvRecord (GoStrings.Split r Char.tab)) w
        ((λ fields, GoStrings.Join fields tabSep) <$> records)
  = w +:+ concatStrings (csvRecord ∘ asRecord <$> records).
Proof.
  intros Hfree. rewrite foldl_app_strings, <- list_fmap_compose. f_equal.
  f_equal. induction Hfree as [|fields records Hfields _ IH]; [done|].
  rewrite !fmap_cons, IH. f_equal. simpl. f_equal.
  by apply (Split_Join_fields Char.tab).
Qed.
End CsvRecords.

Lemma writeCSV_records {F : Type} (formatV : F → string)
    (rangeMap : gmap string string → list (string * string))
    (csvRecord : list string → string) (c : CommandLine)
    (results : list (Result F)) : ∀ w,
  isColumn c = false →
  tabFree (concat ((λ result, concat (seriesRecords formatV rangeMap c
                                        <$> Series result)) <$> results)) →
  foldl (λ w result,
           let rows := formatResults formatV rangeMap c result tabSep in
           foldl (λ w r, w +:+ csvRecord (GoStrings.Split r Char.tab)) w rows)
        w results
  = w +:+ concatStrings
            (csvRecord ∘ asRecord
               <$> concat ((λ result, concat (seriesRecords formatV rangeMap c
                                                <$> Series result))
                             <$> results)).
Proof.
  intros w Hcol. revert w.
  induction results as [|result results IH]; intros w Hfree.
  - by rewrite app_empty_r.
  - rewrite fmap_cons in Hfree. cbn [concat] in Hfree.
    apply Forall_app in Hfree as [Hhere Hrest].
    cbn [foldl]. rewrite fmap_cons. cbn [concat].
    rewrite (IH _ Hrest), formatResults_records by done.
    rewrite (csv_rows_written csvRecord _ _ Hhere).
    by rewrite fmap_app, concatStrings_app, app_assoc'.
Qed.

(** X8: what csv mode hands to the csv writer.  When no name, tag string,
    column name or converted value of the response contains a tab, the
    records written are, for every series of every result in order, the
    header fields and then the fields of each data row, each list written
    as one record; a list without fields is written as a record of one
    empty field. *)
Theorem writeCSV_hands_over_records {F : Type} (formatV : F → string)
    (rangeMap : gmap string string → list (string * string))
    (csvRecord : list string → string) (c : CommandLine)
    (response : Response F) :
  Format c = "csv" →
  tabFree (responseRecords formatV rangeMap c response) →
  writeCSV formatV rangeMap csvRecord c response
  = concatStrings
      (csvRecord ∘ asRecord <$> responseRecords formatV rangeMap c response).
Proof.
  intros Hformat Hfree. destruct (isCSV_true _ Hformat) as [_ Hcol].
  unfold writeCSV. by rewrite writeCSV_records.
Qed.

(** Two series, and a record printer that shows the fields between bars. *)
Lemma writeCSV_hands_over_records_witness :
  writeCSV Sample.noFloat map_to_list
    (λ fields, GoStrings.Join fields "|" +:+ nl) (Sample.shell "csv")
    (mkResponse [mkResult [Sample.cpuRow; Sample.bareRow] None] None)
  = "name|tags|time|value" +:+ nl +:+ "cpu|host=a|0|1" +:+ nl
    +:+ "time|value" +:+ nl +:+ "0|1" +:+ nl.
Proof.
  rewrite (writeCSV_hands_over_records Sample.noFloat map_to_list
             (λ fields, GoStrings.Join fields "|" +:+ nl) (Sample.shell "csv")
             (mkResponse [mkResult [Sample.cpuRow; Sample.bareRow] None] None)
             eq_refl).
  - by vm_compute.
  - vm_compute. repeat constructor.
Defined.

(** * Bytes below 128 *)

Section AsciiFacts.
Implicit Types (s t ws : string) (ch : ascii) (p : ascii → bool).

Lemma every_app p s t : every p (s +:+ t) = every p s && every p t.
Proof.
  induction s as [|ch s IH]; [done|]. rewrite app_cons. simpl.
  by rewrite IH, andb_assoc.
Qed.

Lemma every_impl p q s :
  (∀ ch, p ch = true → q ch = true) → every p s = true → every q s = true.
Proof.
  intros Hpq. induction s as [|ch s IH]; [done|]. simpl.
  intros [Hch Hs]%andb_true_iff. by rewrite (Hpq _ Hch), IH.
Qed.

Lemma lowerByte_facts ch :
  isASCIIByte (lowerByte ch) = isASCIIByte ch
  ∧ asciiSpace (lowerByte ch) = asciiSpace ch
  ∧ isLetter (lowerByte ch) = isLetter ch
  ∧ isNotIdentChar (lowerByte ch) = isNotIdentChar ch
  ∧ lowerByte (lowerByte ch) = lowerByte ch
  ∧ (Char.between "A" "Z" (lowerByte ch) = false).
Proof. by destruct ch as [[] [] [] [] [] [] [] []]. Qed.

Lemma asciiSpace_ASCII ch : asciiSpace ch = true → isASCIIByte ch = true.
Proof. by destruct ch as [[] [] [] [] [] [] [] []]. Qed.

Lemma asciiSpace_not_ident ch : asciiSpace ch = true → isNotIdentChar ch = true.
Proof. by destruct ch as [[] [] [] [] [] [] [] []]. Qed.

Lemma isWhitespace_asciiSpace ch : isWhitespace ch = true → asciiSpace ch = true.
Proof. by destruct ch as [[] [] [] [] [] [] [] []]. Qed.

Lemma spaces_ASCII ws : every asciiSpace ws = true → isASCII ws = true.
Proof. apply every_impl, asciiSpace_ASCII. Qed.

Lemma lowerASCII_app s t : lowerASCII (s +:+ t) = lowerASCII s +:+ lowerASCII t.
Proof.
  induction s as [|ch s IH]; [done|]. rewrite app_cons. simpl.
  by rewrite IH.
Qed.

Lemma every_lowerASCII p s :
  (∀ ch, p (lowerByte ch) = p ch) → every p (lowerASCII s) = every p s.
Proof.
  intros Hp. induction s as [|ch s IH]; [done|]. simpl. by rewrite Hp, IH.
Qed.

Lemma isASCII_lowerASCII s : isASCII (lowerASCII s) = isASCII s.
Proof. apply every_lowerASCII. intros ch. apply lowerByte_facts. Qed.

Lemma lowerASCII_idemp s : lowerASCII (lowerASCII s) = lowerASCII s.
Proof.
  induction s as [|ch s IH]; [done|]. simpl. rewrite IH. f_equal.
  apply lowerByte_facts.
Qed.

(** A byte that is no capital letter survives lowering where it stands. *)
Lemma occurs_lowerASCII x s :
  Char.between "A" "Z" x = false →
  occurs x (lowerASCII s) = false → occurs x s = false.
Proof.
  intros Hx. induction s as [|ch s IH]; [done|]. simpl.
  intros [Hch Hs]%orb_false_iff. rewrite (IH Hs), orb_false_r.
  destruct (Ascii.eqb_spec ch x) as [->|]; [|done].
  unfold lowerByte in Hch. rewrite Hx in Hch. by rewrite Ascii.eqb_refl in Hch.
Qed.

(** *** Trimming *)

Lemma trimLeftASCII_spaces ws s :
  every asciiSpace ws = true → trimLeftASCII (ws +:+ s) = trimLeftASCII s.
Proof.
  induction ws as [|ch ws IH]; [done|]. intros Hws. simpl in Hws.
  apply andb_true_iff in Hws as [Hch Hws]. rewrite app_cons. simpl.
  rewrite Hch. auto.
Qed.

Lemma trimLeftASCII_head ch s :
  asciiSpace ch = false → trimLeftASCII (String ch s) = String ch s.
Proof. intros Hch. simpl. by rewrite Hch. Qed.

Lemma trimRightASCII_spaces ws :
  every asciiSpace ws = true → trimRightASCII ws = "".
Proof.
  induction ws as [|ch ws IH]; [done|]. simpl.
  intros [Hch Hws]%andb_true_iff. by rewrite (IH Hws), Hch.
Qed.

Lemma trimRightASCII_empty s :
  trimRightASCII s = "" → every asciiSpace s = true.
Proof.
  induction s as [|ch s IH]; [done|]. simpl.
  destruct (trimRightASCII s) eqn:Hs; [|done].
  destruct (asciiSpace ch); [|done]. intros _. by apply IH.
Qed.

Lemma trimRightASCII_last s ch :
  asciiSpace ch = false →
  trimRightASCII (s +:+ String ch "") = s +:+ String ch "".
Proof.
  intros Hch. induction s as [|c s IH].
  - change ("" +:+ String ch "") with (String ch ""). simpl. by rewrite Hch.
  - rewrite app_cons. simpl. rewrite IH. by destruct s.
Qed.

Lemma trimRightASCII_app_spaces s ws :
  every asciiSpace ws = true → trimRightASCII (s +:+ ws) = trimRightASCII s.
Proof.
  intros Hws. induction s as [|c s IH].
  - change ("" +:+ ws) with ws. by rewrite trimRightASCII_spaces.
  - rewrite app_cons. simpl. by rewrite IH.
Qed.

Lemma every_trimLeftASCII p s :
  every p s = true → every p (trimLeftASCII s) = true.
Proof.
  induction s as [|ch s IH]; [done|]. simpl.
  intros Hs. destruct (asciiSpace ch); [|done].
  apply andb_true_iff in Hs as [_ Hs]. auto.
Qed.

Lemma every_trimRightASCII p s :
  every p s = true → every p (trimRightASCII s) = true.
Proof.
  induction s as [|ch s IH]; [done|]. simpl.
  intros [Hch Hs]%andb_true_iff. specialize (IH Hs).
  destruct (trimRightASCII s) eqn:Ht.
  - destruct (asciiSpace ch); [done|]. simpl. by rewrite Hch.
  - simpl in *. by rewrite Hch, IH.
Qed.

Lemma every_trimSpaceASCII p s :
  every p s = true → every p (trimSpaceASCII s) = true.
Proof.
  intros Hs. by apply every_trimRightASCII, every_trimLeftASCII.
Qed.

Lemma snoc_cases s : s = "" ∨ ∃ front ch, s = front +:+ String ch "".
Proof.
  induction s as [|c s [->|(front & ch & ->)]]; [by left|right..].
  - by exists "", c.
  - by exists (String c front), ch.
Qed.

(** Text between white space, itself without white space at either end,
    is what trimming keeps. *)
Lemma trimSpaceASCII_between ws1 ws2 ch body last :
  every asciiSpace ws1 = true →
  every asciiSpace ws2 = true →
  asciiSpace ch = false →
  asciiSpace last = false →
  trimSpaceASCII (ws1 +:+ String ch (body +:+ String last "") +:+ ws2)
  = String ch (body +:+ String last "").
Proof.
  intros Hws1 Hws2 Hch Hlast. unfold trimSpaceASCII.
  rewrite trimLeftASCII_spaces by done.
  rewrite app_cons, trimLeftASCII_head by done.
  rewrite <- app_cons, trimRightASCII_app_spaces by done.
  by rewrite <- app_cons, trimRightASCII_last.
Qed.

Lemma trimSpaceASCII_word ws1 ws2 s :
  every asciiSpace ws1 = true →
  every asciiSpace ws2 = true →
  every (λ ch, negb (asciiSpace ch)) s = true →
  trimSpaceASCII (ws1 +:+ s +:+ ws2) = s.
Proof.
  intros Hws1 Hws2 Hs. unfold trimSpaceASCII.
  rewrite trimLeftASCII_spaces by done.
  destruct (snoc_cases s) as [->|(front & last & ->)].
  { change ("" +:+ ws2) with ws2.
    by rewrite trimRightASCII_spaces by by apply every_trimLeftASCII. }
  rewrite every_app in Hs. apply andb_true_iff in Hs as [Hfront Hlast].
  simpl in Hlast. rewrite andb_true_r in Hlast. apply negb_true_iff in Hlast.
  assert (trimLeftASCII ((front +:+ String last "") +:+ ws2)
          = (front +:+ String last "") +:+ ws2) as ->.
  { destruct front as [|c front].
    - change (("" +:+ String last "") +:+ ws2) with (String last ws2).
      by apply trimLeftASCII_head.
    - simpl in Hfront. apply andb_true_iff in Hfront as [Hc _].
      apply negb_true_iff in Hc. rewrite !app_cons.
      by apply trimLeftASCII_head. }
  by rewrite trimRightASCII_app_spaces, trimRightASCII_last.
Qed.
End AsciiFacts.

(** *** Fields *)

Section FieldsFacts.
Implicit Types (s w ws rest : string) (cur : option string).

Lemma scanFields_step (p : ascii → bool) cur ch s :
  GoStrings.scanFields (stateless p) tt cur (String ch s)
  = if p ch
    then GoStrings.close cur ++ GoStrings.scanFields (stateless p) tt None s
    else GoStrings.scanFields (stateless p) tt
           (Some (GoStrings.grow cur ch)) s.
Proof. reflexivity. Qed.

Lemma separates_word w :
  every (λ ch, negb (asciiSpace ch)) w = true →
  GoStrings.separates (stateless asciiSpace) tt w = false.
Proof.
  induction w as [|ch w IH]; [done|]. simpl.
  intros [Hch Hw]%andb_true_iff. apply negb_true_iff in Hch.
  rewrite Hch. auto.
Qed.

Lemma scanFields_spaces ws cur rest :
  every asciiSpace ws = true →
  GoStrings.scanFields (stateless asciiSpace) tt cur (ws +:+ rest)
  = match ws with
    | "" => GoStrings.scanFields (stateless asciiSpace) tt cur rest
    | _ => GoStrings.close cur
           ++ GoStrings.scanFields (stateless asciiSpace) tt None rest
    end.
Proof.
  revert cur. induction ws as [|ch ws IH]; intros cur Hws; [done|].
  simpl in Hws. apply andb_true_iff in Hws as [Hch Hws].
  rewrite app_cons, scanFields_step, Hch.
  rewrite (IH None Hws). by destruct ws.
Qed.

Lemma fieldsASCII_spaces ws rest :
  every asciiSpace ws = true → fieldsASCII (ws +:+ rest) = fieldsASCII rest.
Proof.
  intros Hws. unfold fieldsASCII, GoStrings.FieldsFunc.
  rewrite scanFields_spaces by done. by destruct ws.
Qed.

Lemma fieldsASCII_all_spaces ws : every asciiSpace ws = true → fieldsASCII ws = [].
Proof.
  intros Hws. rewrite <- (app_empty_r ws). by rewrite fieldsASCII_spaces.
Qed.

(** A word followed by white space is the first field. *)
Lemma fieldsASCII_word w sp rest :
  w ≠ "" →
  every (λ ch, negb (asciiSpace ch)) w = true →
  asciiSpace sp = true →
  fieldsASCII (w +:+ String sp rest) = w :: fieldsASCII rest.
Proof.
  intros Hne Hw Hsp. unfold fieldsASCII, GoStrings.FieldsFunc.
  rewrite scanFields_start by (done || by apply separates_word).
  destruct (GoStrings.stateAfter _ _ _).
  by rewrite scanFields_step, Hsp.
Qed.

Lemma fieldsASCII_last w :
  w ≠ "" →
  every (λ ch, negb (asciiSpace ch)) w = true →
  fieldsASCII w = [w].
Proof.
  intros Hne Hw. unfold fieldsASCII, GoStrings.FieldsFunc.
  rewrite <- (app_empty_r w) at 1.
  by rewrite scanFields_start by (done || by apply separates_word).
Qed.

Lemma fieldsASCII_nil s : fieldsASCII s = [] → every asciiSpace s = true.
Proof.
  unfold fieldsASCII, GoStrings.FieldsFunc.
  assert (∀ cur, GoStrings.scanFields (stateless asciiSpace) tt cur s = []
                 → cur = None ∧ every asciiSpace s = true) as Hgen.
  { induction s as [|ch s IH]; intros cur.
    - by destruct cur.
    - rewrite scanFields_step. simpl. destruct (asciiSpace ch).
      + intros [Hcur Hrest]%app_eq_nil. split; [by destruct cur|].
        by apply (IH None).
      + intros Hnil. by apply IH in Hnil as [? _]. }
  intros Hnil. by apply Hgen in Hnil as [_ ?].
Qed.

Lemma scanFields_all_spaces ws cur :
  every asciiSpace ws = true →
  GoStrings.scanFields (stateless asciiSpace) tt cur ws = GoStrings.close cur.
Proof.
  intros Hws. rewrite <- (app_empty_r ws), scanFields_spaces by done.
  destruct ws; [done|]. simpl. by rewrite app_nil_r.
Qed.

(** Trimming changes no field. *)
Lemma scanFields_trimRightASCII s : ∀ cur,
  GoStrings.scanFields (stateless asciiSpace) tt cur (trimRightASCII s)
  = GoStrings.scanFields (stateless asciiSpace) tt cur s.
Proof.
  induction s as [|ch s IH]; intros cur; [done|].
  rewrite (scanFields_step _ cur ch s). cbn [trimRightASCII].
  destruct (trimRightASCII s) as [|k kept] eqn:Hkept.
  - apply trimRightASCII_empty in Hkept.
    destruct (asciiSpace ch) eqn:Hch.
    + rewrite (scanFields_all_spaces s) by done. simpl.
      by rewrite app_nil_r.
    + rewrite scanFields_step, Hch. simpl.
      by rewrite (scanFields_all_spaces s).
  - rewrite scanFields_step. by rewrite !IH.
Qed.

Lemma scanFields_trimLeftASCII s :
  GoStrings.scanFields (stateless asciiSpace) tt None (trimLeftASCII s)
  = GoStrings.scanFields (stateless asciiSpace) tt None s.
Proof.
  induction s as [|ch s IH]; [done|]. cbn [trimLeftASCII].
  destruct (asciiSpace ch) eqn:Hch; [|done].
  by rewrite IH, scanFields_step, Hch.
Qed.

Lemma fieldsASCII_trimSpaceASCII s :
  fieldsASCII (trimSpaceASCII s) = fieldsASCII s.
Proof.
  unfold fieldsASCII, GoStrings.FieldsFunc, trimSpaceASCII.
  by rewrite scanFields_trimRightASCII, scanFields_trimLeftASCII.
Qed.
End FieldsFacts.

(** *** Replacing *)

Section ReplaceFacts.
Implicit Types (s old new : string).

Lemma replaceFrom_skip old new front : ∀ s,
  GoStringsMore.replaceFrom old new (String.length front) (front +:+ s)
  = GoStringsMore.replaceFrom old new 0 s.
Proof.
  induction front as [|ch front IH]; intros s.
  - change ("" +:+ s) with s. by destruct s.
  - rewrite app_cons. simpl. apply IH.
Qed.

Lemma HasPrefix_app s p : GoStrings.HasPrefix (p +:+ s) p = true.
Proof. unfold GoStrings.HasPrefix. by rewrite cutPrefix_app. Qed.

(** An occurrence at the front is replaced and the scan goes on behind it. *)
Lemma ReplaceAll_front ch old new s :
  GoStringsMore.ReplaceAll (String ch old +:+ s) (String ch old) new
  = new +:+ GoStringsMore.ReplaceAll s (String ch old) new.
Proof.
  unfold GoStringsMore.ReplaceAll. rewrite app_cons.
  cbn [GoStringsMore.replaceFrom]. rewrite <- app_cons, HasPrefix_app.
  f_equal. cbn [String.length]. rewrite Nat.sub_1_r. cbn [Nat.pred].
  apply replaceFrom_skip.
Qed.

(** Text without the first byte of [old] is left alone. *)
Lemma ReplaceAll_absent ch old new s :
  occurs ch s = false →
  GoStringsMore.ReplaceAll s (String ch old) new = s.
Proof.
  unfold GoStringsMore.ReplaceAll.
  induction s as [|c s IH]; [done|]. simpl.
  intros [Hc Hs]%orb_false_iff. unfold GoStrings.HasPrefix. simpl.
  rewrite Ascii.eqb_sym, Hc. by rewrite (IH Hs).
Qed.

(** So is text in which no occurrence starts at the front and the first
    byte of [old] does not come back later. *)
Lemma ReplaceAll_no_front c s ch old new :
  GoStrings.HasPrefix (String c s) (String ch old) = false →
  occurs ch s = false →
  GoStringsMore.ReplaceAll (String c s) (String ch old) new = String c s.
Proof.
  intros Hfront Hs. unfold GoStringsMore.ReplaceAll.
  cbn [GoStringsMore.replaceFrom]. rewrite Hfront. f_equal.
  by apply ReplaceAll_absent.
Qed.

Lemma every_replaceFrom p old new s : ∀ skip,
  every p new = true → every p s = true →
  every p (GoStringsMore.replaceFrom old new skip s) = true.
Proof.
  induction s as [|c s IH]; intros skip Hnew Hs; [done|]. simpl in *.
  apply andb_true_iff in Hs as [Hc Hs].
  destruct skip; [|by apply IH].
  destruct (GoStrings.HasPrefix _ _).
  - rewrite every_app, Hnew. by apply IH.
  - simpl. rewrite Hc. by apply IH.
Qed.

Lemma isASCII_ReplaceAll s old :
  isASCII s = true → isASCII (GoStringsMore.ReplaceAll s old "") = true.
Proof. intros Hs. by apply every_replaceFrom. Qed.
End ReplaceFacts.

(** * Properties of the commands *)

Section KeywordFacts.
Context `{UnicodeStrings}.
Implicit Types (s v ws : string).

Lemma occurs_every p x s : p x = false → every p s = true → occurs x s = false.
Proof.
  intros Hx. induction s as [|ch s IH]; [done|]. simpl.
  intros [Hch Hs]%andb_true_iff. rewrite (IH Hs), orb_false_r.
  destruct (Ascii.eqb_spec ch x) as [->|]; [|done]. congruence.
Qed.

Lemma spaceFree_lowerASCII v : spaceFree (lowerASCII v) = spaceFree v.
Proof.
  apply every_lowerASCII. intros ch.
  by destruct (lowerByte_facts ch) as (_ & -> & _).
Qed.

(** What the three setters make of a command: the keyword, if present up
    front, and the white space around the value go, and the value is
    lowered. *)
Lemma withoutKeyword_value k keyword (present : bool) ws1 v ws2 :
  asciiSpace k = false →
  Char.between "A" "Z" k = false →
  every asciiSpace ws1 = true →
  every asciiSpace ws2 = true →
  isASCII (lowerASCII v) = true →
  spaceFree (lowerASCII v) = true →
  occurs k (lowerASCII v) = false →
  withoutKeyword (String k keyword)
    ((if present then String k keyword else "") +:+ ws1 +:+ v +:+ ws2)
  = lowerASCII v.
Proof.
  intros Hk Hcap Hws1 Hws2 Hascii Hfree Hocc. unfold withoutKeyword.
  rewrite isASCII_lowerASCII in Hascii. rewrite spaceFree_lowerASCII in Hfree.
  apply (occurs_lowerASCII _ _ Hcap) in Hocc.
  assert (occurs k (ws1 +:+ v +:+ ws2) = false) as Hnone.
  { rewrite !occurs_app, Hocc.
    by rewrite !(occurs_every asciiSpace k) by done. }
  assert (GoStringsMore.ReplaceAll
            ((if present then String k keyword else "") +:+ ws1 +:+ v +:+ ws2)
            (String k keyword) "" = ws1 +:+ v +:+ ws2) as ->.
  { destruct present.
    - rewrite ReplaceAll_front. by rewrite ReplaceAll_absent.
    - by apply ReplaceAll_absent. }
  rewrite TrimSpace_ascii.
  - rewrite trimSpaceASCII_word by done. by apply ToLower_ascii.
  - unfold isASCII. rewrite !every_app. fold (isASCII v). rewrite Hascii.
    by rewrite !spaces_ASCII.
Qed.

Lemma oneOf_cases s options : oneOf s options = true → s ∈ options.
Proof.
  unfold oneOf. intros (x & Hx & Heq)%existsb_exists.
  apply String.eqb_eq in Heq as ->. by apply list_elem_of_In.
Qed.
End KeywordFacts.

(** X9: [format] with a value.  With or without the keyword up front,
    with any white space around the value and the value in any mix of
    upper and lower case, a value that is json, csv or column in lower
    case becomes the format; nothing is printed and nothing else
    changes. *)
Theorem SetFormat_accepts `{UnicodeStrings} (world : Collaborators)
    (c : CommandLine) (keyword : bool) (ws1 v ws2 : string) :
  every asciiSpace ws1 = true →
  every asciiSpace ws2 = true →
  oneOf (lowerASCII v) formats = true →
  SetFormat world c
    ((if keyword then "format" else "") +:+ ws1 +:+ v +:+ ws2)
  = mkDone tt (setFormat (lowerASCII v) c) "" [].
Proof.
  intros Hws1 Hws2 Hv. unfold SetFormat.
  rewrite (withoutKeyword_value "f" "ormat" keyword); try done.
  - fold formats. by rewrite Hv.
  - apply oneOf_cases in Hv. unfold formats in Hv.
    repeat (apply elem_of_cons in Hv as [->|Hv]; [done|]). by inv Hv.
  - apply oneOf_cases in Hv. unfold formats in Hv.
    repeat (apply elem_of_cons in Hv as [->|Hv]; [done|]). by inv Hv.
  - apply oneOf_cases in Hv. unfold formats in Hv.
    repeat (apply elem_of_cons in Hv as [->|Hv]; [done|]). by inv Hv.
Qed.

Lemma SetFormat_accepts_witness :
  state (SetFormat (H := asciiStrings) quietWorld (Sample.shell "column")
           "format   CSV ")
  = setFormat "csv" (Sample.shell "column").
Proof.
  change "format   CSV " with ("format" +:+ "   " +:+ "CSV" +:+ " ").
  rewrite (SetFormat_accepts (H := asciiStrings) quietWorld
             (Sample.shell "column") true "   " "CSV" " ");
    reflexivity.
Defined.

Lemma SetFormat_state `{UnicodeStrings} world c cmd :
  state (SetFormat world c cmd) = c
  ∨ ∃ format, oneOf format formats = true
              ∧ state (SetFormat world c cmd) = setFormat format c.
Proof.
  unfold SetFormat. fold formats.
  destruct (oneOf (withoutKeyword "format" cmd) formats) eqn:Hone; eauto.
Qed.

Lemma setFormat_eta c : setFormat (Format c) c = c.
Proof. by destruct c. Qed.

(** X10: the format stays one the formatter knows.  Starting from json,
    csv or column, after any sequence of [format] commands, accepted or
    not, the format is still one of the three, nothing but the format has
    changed, and [FormatResponse] takes one of its three writers, never
    the branch for an unknown format. *)
Theorem format_stays_known `{UnicodeStrings} (world : Collaborators)
    (cmds : list string) (c : CommandLine) :
  oneOf (Format c) formats = true →
  let c' := foldl (λ c cmd, state (SetFormat world c cmd)) c cmds in
  oneOf (Format c') formats = true
  ∧ c' = setFormat (Format c') c
  ∧ ∀ (F : Type) (formatV : F → string)
      (rangeMap : gmap string string → list (string * string))
      (Marshal : Response F → string + string)
      (MarshalIndent : Response F → string → string → string + string)
      (csvRecord : list string → string) (tabwriterFlush : string → string)
      (formatQ : string → string) (response : Response F),
      let out := FormatResponse formatV rangeMap Marshal MarshalIndent
                   csvRecord tabwriterFlush formatQ c' response in
      out = mkOutput (writeJSON Marshal MarshalIndent c' response) ""
      ∨ out = mkOutput (writeCSV formatV rangeMap csvRecord c' response) ""
      ∨ out = mkOutput "" (writeColumns formatV rangeMap tabwriterFlush
                             c' response).
Proof.
  intros Hvalid c'.
  assert (oneOf (Format c') formats = true ∧ c' = setFormat (Format c') c)
    as [Hvalid' Hframe].
  { subst c'. induction cmds as [|cmd cmds IH] using rev_ind.
    - split; [done|]. by rewrite setFormat_eta.
    - rewrite foldl_app. cbn [foldl]. destruct IH as [IHvalid IHframe].
      destruct (SetFormat_state world
                  (foldl (λ c cmd, state (SetFormat world c cmd)) c cmds) cmd)
        as [->|(format & Hformat & ->)]; [done|].
      split; [done|]. rewrite IHframe at 1. by destruct c. }
  split; [done|]. split; [done|].
  intros F formatV rangeMap Marshal MarshalIndent csvRecord tabwriterFlush
    formatQ response out. subst out. unfold FormatResponse.
  apply oneOf_cases in Hvalid'. unfold formats in Hvalid'.
  apply elem_of_cons in Hvalid' as [->|Hvalid']; [by left|].
  apply elem_of_cons in Hvalid' as [->|Hvalid']; [by right; left|].
  apply elem_of_cons in Hvalid' as [->|Hvalid']; [by right; right|].
  by inv Hvalid'.
Qed.

Lemma format_stays_known_witness :
  Format (foldl (λ c cmd, state (SetFormat (H := asciiStrings) quietWorld c cmd))
            (Sample.shell "column") ["format json"; "format xml"; "FORMAT csv"])
  = "json".
Proof.
  destruct (format_stays_known (H := asciiStrings) quietWorld
              ["format json"; "format xml"; "FORMAT csv"]
              (Sample.shell "column") eq_refl) as (_ & Hframe & _).
  rewrite Hframe. reflexivity.
Defined.

Lemma setPrecision_eta c : setPrecision (Precision c) c = c.
Proof. by destruct c. Qed.

Lemma SetPrecision_value `{UnicodeStrings} world c (keyword : bool) ws1 v ws2 :
  every asciiSpace ws1 = true →
  every asciiSpace ws2 = true →
  oneOf (lowerASCII v) ("rfc3339" :: precisions) = true →
  let stored :=
    if String.eqb (lowerASCII v) "rfc3339" then "" else lowerASCII v in
  SetPrecision world c
    ((if keyword then "precision" else "") +:+ ws1 +:+ v +:+ ws2)
  = mkDone tt (setPrecision stored c) "" [ClientSetPrecision stored].
Proof.
  intros Hws1 Hws2 Hv stored. unfold SetPrecision.
  apply oneOf_cases in Hv. unfold precisions in Hv.
  rewrite (withoutKeyword_value "p" "recision" keyword); try done;
    repeat (apply elem_of_cons in Hv as [Hv|Hv];
            [subst stored; by rewrite Hv|]); by inv Hv.
Qed.

(** X11: [precision] with a value.  With or without the keyword up front,
    with any white space around the value and the value in any mix of
    upper and lower case: h, m, s, ms, u and ns are stored as they are,
    rfc3339 is stored as the empty string, and in both cases the client is
    told the stored value, once; nothing is printed. *)
Theorem SetPrecision_accepts `{UnicodeStrings} (world : Collaborators)
    (c : CommandLine) (keyword : bool) (ws1 v ws2 : string) :
  every asciiSpace ws1 = true →
  every asciiSpace ws2 = true →
  oneOf (lowerASCII v) ("rfc3339" :: precisions) = true →
  let stored :=
    if String.eqb (lowerASCII v) "rfc3339" then "" else lowerASCII v in
  SetPrecision world c
    ((if keyword then "precision" else "") +:+ ws1 +:+ v +:+ ws2)
  = mkDone tt (setPrecision stored c) "" [ClientSetPrecision stored].
Proof. apply SetPrecision_value. Qed.

Lemma SetPrecision_accepts_witness :
  SetPrecision (H := asciiStrings) quietWorld (Sample.shell "column")
    "precision RFC3339"
  = mkDone tt (setPrecision "" (Sample.shell "column")) ""
      [ClientSetPrecision ""].
Proof.
  change "precision RFC3339" with ("precision" +:+ " " +:+ "RFC3339" +:+ "").
  rewrite (SetPrecision_accepts (H := asciiStrings) quietWorld
             (Sample.shell "column") true " " "RFC3339" ""); reflexivity.
Defined.

(** X12: handing a stored precision back, as [Run] does before it
    executes a query.  A stored h, m, s, ms, u or ns is accepted again
    and changes nothing; the empty string, which is what rfc3339 is
    stored as, is rejected as an unknown precision, and the client is not
    called. *)
Theorem SetPrecision_of_stored `{UnicodeStrings} (world : Collaborators)
    (c : CommandLine) :
  (oneOf (Precision c) precisions = true →
     SetPrecision world c (Precision c)
     = mkDone tt c "" [ClientSetPrecision (Precision c)])
  ∧ (Precision c = "" →
       SetPrecision world c (Precision c)
       = mkDone tt c
           ("Unknown precision " +:+ formatQuoted world ""
            +:+ ". Please use rfc3339, h, m, s, ms, u or ns." +:+ nl) []).
Proof.
  split.
  - intros Hv.
    assert (lowerASCII (Precision c) = Precision c) as Hlow.
    { apply oneOf_cases in Hv. unfold precisions in Hv.
      repeat (apply elem_of_cons in Hv as [->|Hv]; [done|]). by inv Hv. }
    pose proof (SetPrecision_value world c false "" (Precision c) ""
                  eq_refl eq_refl) as Hacc.
    rewrite Hlow in Hacc. cbn [existsb] in Hacc.
    change ("" +:+ "" +:+ Precision c +:+ "") with (Precision c +:+ "") in Hacc.
    rewrite app_empty_r in Hacc.
    rewrite Hacc.
    + assert (String.eqb (Precision c) "rfc3339" = false) as ->.
      { apply oneOf_cases in Hv. unfold precisions in Hv.
        repeat (apply elem_of_cons in Hv as [->|Hv]; [done|]). by inv Hv. }
      by rewrite setPrecision_eta.
    + apply oneOf_cases in Hv. unfold precisions in Hv.
      repeat (apply elem_of_cons in Hv as [->|Hv]; [done|]). by inv Hv.
  - intros ->. unfold SetPrecision.
    by rewrite (withoutKeyword_value "p" "recision" false "" "" "").
Qed.

Lemma SetPrecision_of_stored_witness :
  let c := state (SetPrecision (H := asciiStrings) quietWorld
                    (Sample.shell "column") "precision rfc3339") in
  calls (SetPrecision (H := asciiStrings) quietWorld c (Precision c)) = [].
Proof.
  cbv zeta.
  destruct (SetPrecision_of_stored (H := asciiStrings) quietWorld
              (state (SetPrecision (H := asciiStrings) quietWorld
                        (Sample.shell "column") "precision rfc3339")))
    as [_ Hempty].
  by rewrite (Hempty eq_refl).
Defined.

(** ** [use] *)

Section SuffixFacts.
Implicit Types (s suffix front : string).

Lemma eqb_length s t : String.eqb s t = true → String.length s = String.length t.
Proof. by intros ->%String.eqb_eq. Qed.

Lemma cutSuffix_app suffix s :
  GoStringsMore.cutSuffix suffix (s +:+ suffix) = Some s.
Proof.
  induction s as [|ch s IH].
  - change ("" +:+ suffix) with suffix.
    destruct suffix; simpl; by rewrite ?Ascii.eqb_refl, ?String.eqb_refl.
  - rewrite app_cons. cbn [GoStringsMore.cutSuffix].
    destruct (String.eqb _ suffix) eqn:Heq.
    + apply eqb_length in Heq. simpl in Heq. rewrite length_app' in Heq. lia.
    + by rewrite IH.
Qed.

Lemma cutSuffix_Some suffix s : ∀ front,
  GoStringsMore.cutSuffix suffix s = Some front → s = front +:+ suffix.
Proof.
  induction s as [|ch s IH]; intros front; cbn [GoStringsMore.cutSuffix].
  - destruct (String.eqb "" suffix) eqn:Heq; [|done].
    apply String.eqb_eq in Heq as <-. by intros [= <-].
  - destruct (String.eqb (String ch s) suffix) eqn:Heq.
    + apply String.eqb_eq in Heq as <-. by intros [= <-].
    + destruct (GoStringsMore.cutSuffix suffix s) as [f|]; [|done].
      intros [= <-]. rewrite app_cons. f_equal. by apply IH.
Qed.

Lemma TrimSuffix_app suffix s : GoStringsMore.TrimSuffix (s +:+ suffix) suffix = s.
Proof. unfold GoStringsMore.TrimSuffix. by rewrite cutSuffix_app. Qed.

(** Bytes put in front of a text do not change how it ends. *)
Lemma cutSuffix_behind x front s :
  s ≠ "" →
  GoStringsMore.cutSuffix (String x "") (front +:+ s)
  = (λ kept, front +:+ kept) <$> GoStringsMore.cutSuffix (String x "") s.
Proof.
  intros Hne. induction front as [|ch front IH].
  - change ("" +:+ s) with s. by destruct (GoStringsMore.cutSuffix _ s).
  - rewrite app_cons. cbn [GoStringsMore.cutSuffix].
    destruct (String.eqb _ (String x "")) eqn:Heq.
    + apply eqb_length in Heq. simpl in Heq. rewrite length_app' in Heq.
      destruct s; [done|]. simpl in Heq. lia.
    + rewrite IH. by destruct (GoStringsMore.cutSuffix _ s).
Qed.

Lemma TrimSuffix_behind x front s :
  s ≠ "" →
  GoStringsMore.TrimSuffix s (String x "") = s →
  GoStringsMore.TrimSuffix (front +:+ s) (String x "") = front +:+ s.
Proof.
  intros Hne Hkeep. unfold GoStringsMore.TrimSuffix in *.
  rewrite cutSuffix_behind by done.
  destruct (GoStringsMore.cutSuffix (String x "") s) as [kept|] eqn:Hcut;
    [|done].
  apply cutSuffix_Some in Hcut. subst kept.
  apply (f_equal String.length) in Hcut. rewrite length_app' in Hcut.
  simpl in Hcut. lia.
Qed.

Lemma Split_length sep s :
  length (GoStrings.Split s sep) = S (countByte sep s).
Proof.
  induction s as [|ch s IH]; [done|]. simpl.
  destruct (Ascii.eqb ch sep); simpl; [by rewrite IH|].
  destruct (GoStrings.Split s sep); simpl in *; lia.
Qed.
End SuffixFacts.

(** X13: [use] with a name.  For a command word and a database name
    without white space in them, separated by exactly one space, with any
    white space around the command and an optional semicolon directly
    after the name, the name becomes the database and is announced; the
    command word itself is not looked at.  With the semicolon the name may
    even be empty; without it the name must not be empty and must not end
    in a semicolon. *)
Theorem use_sets_database `{UnicodeStrings} (world : Collaborators)
    (c : CommandLine) (ws1 word db ws2 : string) (semicolon : bool) :
  every asciiSpace ws1 = true →
  every asciiSpace ws2 = true →
  isASCII word = true →
  isASCII db = true →
  word ≠ "" →
  spaceFree word = true →
  spaceFree db = true →
  (semicolon = false →
     db ≠ "" ∧ GoStringsMore.TrimSuffix db ";" = db) →
  use world c
    (ws1 +:+ word +:+ " " +:+ db +:+ (if semicolon then ";" else "") +:+ ws2)
  = mkDone tt (setDatabase db c) ("Using database " +:+ db +:+ nl) [].
Proof.
  intros Hws1 Hws2 Haword Hadb Hword Hfword Hfdb Hsemi. unfold use.
  set (semi := if semicolon then ";" else "").
  assert (isASCII (ws1 +:+ word +:+ " " +:+ db +:+ semi +:+ ws2) = true)
    as Hascii.
  { pose proof (spaces_ASCII _ Hws1) as Ha1.
    pose proof (spaces_ASCII _ Hws2) as Ha2.
    unfold isASCII in *. rewrite !every_app, Haword, Hadb, Ha1, Ha2.
    subst semi. by destruct semicolon. }
  rewrite (TrimSpace_ascii _ Hascii).
  assert (trimSpaceASCII (ws1 +:+ word +:+ " " +:+ db +:+ semi +:+ ws2)
          = word +:+ " " +:+ db +:+ semi) as ->.
  { destruct word as [|k word]; [done|].
    unfold spaceFree in Hfword. simpl in Hfword.
    apply andb_true_iff in Hfword as [Hk _]. apply negb_true_iff in Hk.
    assert (∃ body last, word +:+ " " +:+ db +:+ semi = body +:+ String last ""
                         ∧ asciiSpace last = false) as (body & last & Hsplit & Hl).
    { subst semi. destruct semicolon.
      - exists (word +:+ " " +:+ db), ";"%char. by rewrite !app_assoc'.
      - destruct (Hsemi eq_refl) as [Hdb _].
        destruct (snoc_cases db) as [->|(front & last & ->)]; [done|].
        exists (word +:+ " " +:+ front), last. split.
        + by rewrite app_empty_r, !app_assoc'.
        + unfold spaceFree in Hfdb. rewrite every_app in Hfdb.
          apply andb_true_iff in Hfdb as [_ Hlast]. simpl in Hlast.
          rewrite andb_true_r in Hlast. by apply negb_true_iff in Hlast. }
    replace (ws1 +:+ String k word +:+ " " +:+ db +:+ semi +:+ ws2)
      with (ws1 +:+ (String k word +:+ " " +:+ db +:+ semi) +:+ ws2)
      by (by rewrite !app_assoc').
    rewrite (app_cons k word), Hsplit.
    by apply trimSpaceASCII_between. }
  assert (GoStringsMore.TrimSuffix (word +:+ " " +:+ db +:+ semi) ";"
          = word +:+ " " +:+ db) as ->.
  { subst semi. destruct semicolon.
    - by rewrite <- !app_assoc', TrimSuffix_app.
    - destruct (Hsemi eq_refl) as [Hdb Hkeep]. rewrite app_empty_r.
      rewrite <- app_assoc'. by apply TrimSuffix_behind. }
  change (" " +:+ db) with (String Char.space db).
  rewrite Split_at, Split_without; [done|..];
    by apply (occurs_every (λ ch, negb (asciiSpace ch))).
Qed.

Lemma use_sets_database_witness :
  use (H := asciiStrings) quietWorld (Sample.shell "column") " USE mydb; "
  = mkDone tt (setDatabase "mydb" (Sample.shell "column"))
      ("Using database mydb" +:+ nl) [].
Proof.
  change " USE mydb; " with (" " +:+ "USE" +:+ " " +:+ "mydb" +:+ ";" +:+ " ").
  apply (use_sets_database (H := asciiStrings) quietWorld
           (Sample.shell "column") " " "USE" "mydb" " " true);
    try reflexivity; discriminate.
Defined.

(** X14: [use] without exactly one space.  When the command, trimmed and
    without one closing semicolon, does not contain exactly one space (no
    name, two spaces before the name, a name with a space in it, a space
    before the semicolon), the database keeps its value and the message
    that no name could be parsed is printed. *)
Theorem use_rejects `{UnicodeStrings} (world : Collaborators)
    (c : CommandLine) (cmd : string) :
  isASCII cmd = true →
  countByte Char.space (GoStringsMore.TrimSuffix (trimSpaceASCII cmd) ";") ≠ 1 →
  use world c cmd
  = mkDone tt c
      ("Could not parse database name from " +:+ formatQuoted world cmd
       +:+ "." +:+ nl) [].
Proof.
  intros Hascii Hcount. unfold use. rewrite (TrimSpace_ascii _ Hascii).
  pose proof (Split_length Char.space
                (GoStringsMore.TrimSuffix (trimSpaceASCII cmd) ";")) as Hlen.
  destruct (GoStrings.Split _ _) as [|a [|b [|d rest]]]; simpl in Hlen;
    try done.
  lia.
Qed.

Lemma use_rejects_witness :
  state (use (H := asciiStrings) quietWorld (Sample.shell "column")
           "use  mydb")
  = Sample.shell "column".
Proof.
  rewrite (use_rejects (H := asciiStrings) quietWorld (Sample.shell "column")
             "use  mydb"); [reflexivity|reflexivity|].
  vm_compute. lia.
Defined.

(** ** [ParseCommand] *)

Section DispatchFacts.
Context `{UnicodeStrings}.

(** On bytes below 128 the tokens are the words of the lowered line. *)
Lemma tokens_ascii cmd :
  isASCII cmd = true →
  Fields (TrimSpace (ToLower cmd)) = fieldsASCII (lowerASCII cmd).
Proof.
  intros Hascii. rewrite (ToLower_ascii _ Hascii).
  assert (isASCII (lowerASCII cmd) = true) as Hlow
    by by rewrite isASCII_lowerASCII.
  rewrite (TrimSpace_ascii _ Hlow), Fields_ascii.
  - apply fieldsASCII_trimSpaceASCII.
  - by apply every_trimSpaceASCII.
Qed.

Lemma lowerASCII_spaces ws : every asciiSpace ws = true → lowerASCII ws = ws.
Proof.
  induction ws as [|ch ws IH]; [done|]. simpl.
  intros [Hch Hws]%andb_true_iff. rewrite (IH Hws). f_equal.
  revert Hch. by destruct ch as [[] [] [] [] [] [] [] []].
Qed.

Lemma length_lowerASCII s : String.length (lowerASCII s) = String.length s.
Proof. induction s as [|ch s IH]; [done|]. simpl. by rewrite IH. Qed.

Lemma every_asciiSpace_lowerASCII s :
  every asciiSpace (lowerASCII s) = every asciiSpace s.
Proof.
  apply every_lowerASCII. intros ch.
  by destruct (lowerByte_facts ch) as (_ & -> & _).
Qed.
End DispatchFacts.

(** X15: which lines [ParseCommand] takes.  For a line of bytes below
    128: a line of white space only (the empty line included) is not a
    command, the answer is false and nothing is printed, called or
    changed; every other line is answered true, whatever it says, so it
    is the non-blank lines that reach the history. *)
Theorem ParseCommand_blank_line `{UnicodeStrings} (world : Collaborators)
    (c : CommandLine) (cmd : string) :
  isASCII cmd = true →
  (every asciiSpace cmd = true →
     ParseCommand world c cmd = mkDone false c "" [])
  ∧ (every asciiSpace cmd = false →
       answer (ParseCommand world c cmd) = true).
Proof.
  intros Hascii. unfold ParseCommand. rewrite (tokens_ascii _ Hascii). split.
  - intros Hblank. rewrite fieldsASCII_all_spaces; [done|].
    by rewrite every_asciiSpace_lowerASCII.
  - intros Hword.
    destruct (fieldsASCII (lowerASCII cmd)) as [|token0 tokens] eqn:Hfields.
    + apply fieldsASCII_nil in Hfields.
      rewrite every_asciiSpace_lowerASCII in Hfields. congruence.
    + by repeat case_match.
Qed.

Lemma ParseCommand_blank_line_witness :
  ParseCommand (H := asciiStrings) quietWorld (Sample.shell "column") "   "
  = mkDone false (Sample.shell "column") "" []
  ∧ answer (ParseCommand (H := asciiStrings) quietWorld
              (Sample.shell "column") " show databases")
    = true.
Proof.
  split.
  - destruct (ParseCommand_blank_line (H := asciiStrings) quietWorld
                (Sample.shell "column") "   " eq_refl) as [Hblank _].
    by apply Hblank.
  - destruct (ParseCommand_blank_line (H := asciiStrings) quietWorld
                (Sample.shell "column") " show databases" eq_refl)
      as [_ Hword].
    by apply Hword.
Defined.

Lemma setPretty_twice c :
  setPretty (negb (Pretty (setPretty (negb (Pretty c)) c)))
    (setPretty (negb (Pretty c)) c) = c.
Proof. destruct c as [? ? ? ? ? ? ? ? ? []]; reflexivity. Qed.

(** X16: [pretty] is a switch.  A line whose first token is pretty flips
    the flag and says which way; a second such line restores the receiver
    exactly.  The first token is the first field of the lower-cased,
    trimmed line, which is all [ParseCommand] looks at; on a line of
    bytes below 128 it is the line's first word in lower case, so that
    pretty is recognised in any mix of case. *)
Theorem pretty_twice_restores `{UnicodeStrings} (world : Collaborators)
    (c : CommandLine) (cmd1 cmd2 : string) :
  firstToken cmd1 = Some "pretty" →
  firstToken cmd2 = Some "pretty" →
  ParseCommand world c cmd1
  = mkDone true (setPretty (negb (Pretty c)) c)
      ((if Pretty c then "Pretty print disabled" else "Pretty print enabled")
       +:+ nl) []
  ∧ state (ParseCommand world (state (ParseCommand world c cmd1)) cmd2) = c
  ∧ (∀ cmd, isASCII cmd = true → firstToken cmd = firstWord cmd).
Proof.
  intros Hword1 Hword2. unfold firstToken in *.
  assert (∀ c cmd,
            head (Fields (TrimSpace (ToLower cmd))) = Some "pretty" →
            ParseCommand world c cmd
            = mkDone true (setPretty (negb (Pretty c)) c)
                ((if Pretty c then "Pretty print disabled"
                  else "Pretty print enabled") +:+ nl) []) as Hflip.
  { intros c0 cmd Hword. unfold ParseCommand.
    destruct (Fields (TrimSpace (ToLower cmd))) as [|token0 tokens]; [done|].
    simpl in Hword. simplify_eq. simpl. by destruct (Pretty c0). }
  split; [by apply Hflip|]. split.
  - rewrite (Hflip c cmd1), (Hflip _ cmd2) by done. simpl.
    apply setPretty_twice.
  - intros cmd Hascii. unfold firstWord. by rewrite (tokens_ascii _ Hascii).
Qed.

Lemma pretty_twice_restores_witness :
  state (ParseCommand (H := asciiStrings) quietWorld
           (state (ParseCommand (H := asciiStrings) quietWorld
                     (Sample.shell "json") "pretty"))
           " PRETTY please")
  = Sample.shell "json".
Proof.
  destruct (pretty_twice_restores (H := asciiStrings) quietWorld
              (Sample.shell "json") "pretty" " PRETTY please"
              eq_refl eq_refl) as (_ & Hback & _).
  exact Hback.
Defined.

Lemma app_empty_l s : "" +:+ s = s.
Proof. reflexivity. Qed.

(** Appends brought to one shape: nested to the right, with the bytes in
    front pulled out. *)
Ltac string_norm :=
  repeat first [ rewrite app_assoc' | rewrite app_cons
               | rewrite app_empty_l | rewrite app_empty_r ].

Lemma HasPrefix_same_length p q rest :
  String.length p = String.length q →
  GoStrings.HasPrefix (q +:+ rest) p = true → p = q.
Proof.
  unfold GoStrings.HasPrefix. intros Hlen.
  destruct (GoStrings.cutPrefix p (q +:+ rest)) as [r|] eqn:Hcut; [|done].
  intros _. apply cutPrefix_Some in Hcut. symmetry in Hcut.
  by apply app_eq_length in Hcut.
Qed.

(** X17: the keyword is found without regard to case but removed with
    regard to it.  A line that spells format with at least one capital
    letter, followed by white space and one of the three formats, is
    dispatched to [SetFormat], which then fails to remove the keyword and
    rejects the whole line: the answer is true, the format keeps its
    value, and the line in lower case is reported as an unknown format. *)
Theorem capital_format_keyword_rejected `{UnicodeStrings}
    (world : Collaborators) (c : CommandLine) (keyword : string) (sp : ascii)
    (ws v ws2 : string) :
  lowerASCII keyword = "format" →
  keyword ≠ "format" →
  asciiSpace sp = true →
  every asciiSpace ws = true →
  every asciiSpace ws2 = true →
  oneOf (lowerASCII v) formats = true →
  ParseCommand world c (keyword +:+ String sp ws +:+ v +:+ ws2)
  = mkDone true c
      ("Unknown format "
       +:+ formatQuoted world ("format" +:+ String sp ws +:+ lowerASCII v)
       +:+ ". Please use json, csv, or column." +:+ nl) [].
Proof.
  intros Hlow Hcap Hsp Hws Hws2 Hv.
  assert (isASCII (lowerASCII v) = true ∧ spaceFree (lowerASCII v) = true
          ∧ occurs "f" (lowerASCII v) = false ∧ v ≠ "") as (Hav & Hfv & Hov & Hne).
  { assert (v ≠ "") by (by intros ->).
    apply oneOf_cases in Hv. unfold formats in Hv.
    repeat (apply elem_of_cons in Hv as [->|Hv]; [done|]). by inv Hv. }
  rewrite isASCII_lowerASCII in Hav. rewrite spaceFree_lowerASCII in Hfv.
  assert (Char.between "A" "Z" "f" = false) as Hf by done.
  apply (occurs_lowerASCII _ _ Hf) in Hov.
  assert (isASCII keyword = true) as Hak
    by by rewrite <- isASCII_lowerASCII, Hlow.
  assert (spaceFree keyword = true) as Hfk
    by by rewrite <- spaceFree_lowerASCII, Hlow.
  assert (every asciiSpace (String sp ws) = true) as Hspaces
    by (by simpl; rewrite Hsp).
  set (cmd := keyword +:+ String sp ws +:+ v +:+ ws2).
  assert (isASCII cmd = true) as Hascii.
  { pose proof (spaces_ASCII _ Hspaces) as Ha1.
    pose proof (spaces_ASCII _ Hws2) as Ha2.
    unfold cmd, isASCII in *. by rewrite !every_app, Hak, Ha1, Hav, Ha2. }
  assert (lowerASCII cmd
          = "format" +:+ String sp ws +:+ lowerASCII v +:+ ws2) as Hlcmd.
  { unfold cmd. rewrite !lowerASCII_app, Hlow.
    by rewrite (lowerASCII_spaces _ Hspaces), (lowerASCII_spaces _ Hws2). }
  (* the dispatch *)
  unfold ParseCommand. rewrite (tokens_ascii _ Hascii), Hlcmd.
  rewrite (app_cons sp), fieldsASCII_word by done.
  change (String.eqb "format" "exit") with false.
  change (String.eqb "format" "gopher") with false.
  change (String.eqb "format" "connect") with false.
  change (String.eqb "format" "auth") with false.
  change (String.eqb "format" "help") with false.
  change (String.eqb "format" "history") with false.
  change (String.eqb "format" "format") with true. cbv iota.
  (* the setter *)
  unfold handled, SetFormat, withoutKeyword.
  assert (GoStringsMore.ReplaceAll cmd "format" "" = cmd) as ->.
  { destruct keyword as [|k keyword]; [done|]. simpl in Hlow.
    injection Hlow as Hk Hrest. unfold cmd. rewrite app_cons.
    apply ReplaceAll_no_front.
    - destruct (GoStrings.HasPrefix _ _) eqn:Hpre; [|done].
      rewrite <- app_cons in Hpre.
      apply HasPrefix_same_length in Hpre; [by subst|].
      simpl. f_equal. by rewrite <- (length_lowerASCII keyword), Hrest.
    - rewrite !occurs_app, Hov.
      rewrite (occurs_lowerASCII _ keyword Hf) by by rewrite Hrest.
      rewrite (occurs_every asciiSpace "f" (String sp ws)) by done.
      by rewrite (occurs_every asciiSpace "f" ws2). }
  rewrite (TrimSpace_ascii _ Hascii).
  assert (trimSpaceASCII cmd = keyword +:+ String sp ws +:+ v) as ->.
  { destruct keyword as [|k keyword]; [done|].
    unfold spaceFree in Hfk, Hfv. simpl in Hfk.
    apply andb_true_iff in Hfk as [Hk _]. apply negb_true_iff in Hk.
    destruct (snoc_cases v) as [->|(front & last & ->)]; [done|].
    rewrite every_app in Hfv. apply andb_true_iff in Hfv as [_ Hlast].
    simpl in Hlast. rewrite andb_true_r in Hlast.
    apply negb_true_iff in Hlast.
    unfold cmd.
    replace (String k keyword +:+ String sp ws +:+ (front +:+ String last "")
             +:+ ws2)
      with ("" +:+ String k ((keyword +:+ String sp ws +:+ front)
                             +:+ String last "") +:+ ws2)
      by (by string_norm).
    rewrite trimSpaceASCII_between by done.
    by string_norm. }
  rewrite ToLower_ascii.
  - rewrite !lowerASCII_app, Hlow, (lowerASCII_spaces _ Hspaces). done.
  - pose proof (spaces_ASCII _ Hspaces) as Ha1.
    unfold isASCII in *. by rewrite !every_app, Hak, Ha1, Hav.
Qed.

Lemma capital_format_keyword_rejected_witness :
  ParseCommand (H := asciiStrings) quietWorld (Sample.shell "column")
    "FORMAT csv"
  = mkDone true (Sample.shell "column")
      ("Unknown format " +:+ quoted "format csv"
       +:+ ". Please use json, csv, or column." +:+ nl) [].
Proof.
  change "FORMAT csv" with ("FORMAT" +:+ String " " "" +:+ "csv" +:+ "").
  rewrite (capital_format_keyword_rejected (H := asciiStrings) quietWorld
             (Sample.shell "column") "FORMAT" " " "" "csv" "");
    try reflexivity. discriminate.
Defined.

(** ** [Insert] *)

Section InsertFacts.
Context `{UnicodeStrings}.

Lemma isLetter_facts ch :
  isLetter ch = true →
  isASCIIByte ch = true ∧ isIdentFirstChar ch = true
  ∧ isNotIdentChar ch = false.
Proof. by destruct ch as [[] [] [] [] [] [] [] []]. Qed.

(** A word that is a keyword of letters when lowered is itself an
    unquoted identifier of bytes below 128. *)
Lemma keyword_identifier word keyword :
  lowerASCII word = keyword →
  keyword ≠ "" →
  every isLetter keyword = true →
  unquotedIdentifier word = true ∧ isASCII word = true.
Proof.
  intros <- Hne Hletters.
  rewrite every_lowerASCII in Hletters
    by (intros ch; by destruct (lowerByte_facts ch) as (_ & _ & -> & _)).
  split.
  - destruct word as [|ch word]; [done|]. simpl in *.
    apply andb_true_iff in Hletters as [Hch Hword].
    destruct (isLetter_facts _ Hch) as (_ & -> & _). simpl.
    apply (every_impl isLetter); [|done].
    intros c0 Hc0. by destruct (isLetter_facts _ Hc0) as (_ & _ & ->).
  - apply (every_impl isLetter); [|done].
    intros c0 Hc0. by destruct (isLetter_facts _ Hc0) as (? & _).
Qed.

Lemma EqualFold_keyword word keyword :
  lowerASCII word = keyword →
  lowerASCII keyword = keyword →
  isASCII keyword = true →
  EqualFold word keyword = true.
Proof.
  intros Hword Hkeyword Hascii. rewrite EqualFold_ascii; [|..|done].
  - unfold equalFoldASCII. rewrite Hword, Hkeyword. apply String.eqb_refl.
  - by rewrite <- isASCII_lowerASCII, Hword.
Qed.

Lemma whitespace_ends_identifier ws rest :
  ws ≠ "" → every isWhitespace ws = true → endsIdentifier (ws +:+ rest) = true.
Proof.
  destruct ws as [|ch ws]; [done|]. intros _ Hws. simpl in Hws.
  apply andb_true_iff in Hws as [Hch _]. rewrite app_cons. simpl.
  by apply asciiSpace_not_ident, isWhitespace_asciiSpace.
Qed.

Lemma parseInto_skip c ws stmt :
  every isWhitespace ws = true → parseInto c (ws +:+ stmt) = parseInto c stmt.
Proof. intros Hws. unfold parseInto. by rewrite parseNextIdentifier_skip. Qed.
End InsertFacts.

(** X18: INSERT INTO with a database and a retention policy.  With the two
    keywords in any mix of case, unquoted names and white space between
    the words, the statement makes exactly one write: of the text after
    the space that follows the retention policy, as one raw point, to the
    database and retention policy named, with precision n and the
    consistency of the shell.  The two names become the database and the
    retention policy of the shell, and stay so when the write fails; the
    error of the write is what [Insert] returns. *)
Theorem Insert_into_writes `{UnicodeStrings} (world : Collaborators)
    (c : CommandLine) (insert ws1 into ws2 db rp point : string) :
  lowerASCII insert = "insert" →
  lowerASCII into = "into" →
  ws1 ≠ "" → every isWhitespace ws1 = true →
  ws2 ≠ "" → every isWhitespace ws2 = true →
  unquotedIdentifier db = true →
  unquotedIdentifier rp = true →
  let bp := mkBatchPoints [mkPoint point] db rp "n" (WriteConsistency c) in
  Insert world c
    (insert +:+ ws1 +:+ into +:+ ws2 +:+ db +:+ "." +:+ rp +:+ " " +:+ point)
  = mkDone (clientWrite world bp)
      (setRetentionPolicy rp (setDatabase db c))
      ("Using database " +:+ db +:+ nl
       +:+ "Using retention policy " +:+ rp +:+ nl
       +:+ match clientWrite world bp with
           | Some err => "ERR: " +:+ err +:+ nl
           | None => ""
           end)
      [ClientWrite bp].
Proof.
  intros Hinsert Hinto Hne1 Hws1 Hne2 Hws2 Hdb Hrp bp.
  destruct (keyword_identifier insert "insert" Hinsert) as [Hid1 Ha1]; [done..|].
  destruct (keyword_identifier into "into" Hinto) as [Hid2 Ha2]; [done..|].
  unfold Insert.
  rewrite (parseNextIdentifier_unquoted insert)
    by (done || by apply whitespace_ends_identifier).
  rewrite (EqualFold_keyword insert "insert") by done. cbn [negb].
  rewrite parseNextIdentifier_skip by done.
  rewrite (parseNextIdentifier_unquoted into)
    by (done || by apply whitespace_ends_identifier).
  rewrite (EqualFold_keyword into "into") by done.
  rewrite parseInto_skip, parseInto_qualified by done.
  cbn [receiver printed returned Database RetentionPolicy WriteConsistency
       setRetentionPolicy setDatabase].
  fold bp.
  assert (String.eqb db "" = false) as -> by by destruct db.
  destruct (clientWrite world bp); [|by rewrite app_empty_r].
  by rewrite !app_assoc'.
Qed.

Lemma Insert_into_writes_witness :
  Insert (H := asciiStrings) quietWorld (Sample.shell "column")
    "INSERT INTO mydb.rp cpu value=1"
  = mkDone None
      (setRetentionPolicy "rp" (setDatabase "mydb" (Sample.shell "column")))
      ("Using database mydb" +:+ nl +:+ "Using retention policy rp" +:+ nl)
      [ClientWrite (mkBatchPoints [mkPoint "cpu value=1"] "mydb" "rp" "n"
                      "any")].
Proof.
  change "INSERT INTO mydb.rp cpu value=1"
    with ("INSERT" +:+ " " +:+ "INTO" +:+ " " +:+ "mydb" +:+ "." +:+ "rp"
          +:+ " " +:+ "cpu value=1").
  rewrite (Insert_into_writes (H := asciiStrings) quietWorld
             (Sample.shell "column") "INSERT" " " "INTO" " " "mydb" "rp"
             "cpu value=1"); try reflexivity; discriminate.
Defined.

(** X19: INSERT without INTO.  When the word after the keyword is not
    into, the point written is everything after the keyword, the white
    space that follows the keyword included; it goes to the database and
    retention policy the shell has, which it leaves as they are. *)
Theorem Insert_without_into `{UnicodeStrings} (world : Collaborators)
    (c : CommandLine) (insert rest : string) :
  lowerASCII insert = "insert" →
  endsIdentifier rest = true →
  EqualFold (parseNextIdentifier rest).1 "into" = false →
  let bp := mkBatchPoints [mkPoint rest] (Database c) (RetentionPolicy c) "n"
              (WriteConsistency c) in
  Insert world c (insert +:+ rest)
  = mkDone (clientWrite world bp) c
      match clientWrite world bp with
      | Some err => writeFailure (Database c) err
      | None => ""
      end
      [ClientWrite bp].
Proof.
  intros Hinsert Hrest Hinto bp.
  destruct (keyword_identifier insert "insert" Hinsert) as [Hid Ha]; [done..|].
  unfold Insert. rewrite (parseNextIdentifier_unquoted insert) by done.
  rewrite (EqualFold_keyword insert "insert") by done. cbn [negb].
  destruct (parseNextIdentifier rest) as [i r]. simpl in Hinto.
  rewrite Hinto. fold bp. unfold writeFailure.
  destruct (clientWrite world bp); [|done].
  destruct (String.eqb (Database c) ""); by string_norm.
Qed.

Lemma Insert_without_into_witness :
  calls (Insert (H := asciiStrings) quietWorld (Sample.shell "column")
           "insert cpu value=1")
  = [ClientWrite (mkBatchPoints [mkPoint " cpu value=1"] "db0" "rp0" "n" "any")].
Proof.
  change "insert cpu value=1" with ("insert" +:+ " cpu value=1").
  rewrite (Insert_without_into (H := asciiStrings) quietWorld
             (Sample.shell "column") "insert" " cpu value=1");
    reflexivity.
Defined.

(** X20: what [Insert] does at most, for every statement.  It makes no
    call or exactly one write, of a single point with precision n, to the
    database and retention policy the shell has afterwards; what it
    returns is the error of that write, and nothing when it made none,
    as for a statement that does not begin with insert; and the shell
    afterwards differs from the shell before in the database and the
    retention policy at most. *)
Theorem Insert_at_most_one_write `{UnicodeStrings} (world : Collaborators)
    (c : CommandLine) (stmt : string) :
  let d := Insert world c stmt in
  ((calls d = [] ∧ answer d = None ∧ state d = c)
   ∨ ∃ point,
       let bp := mkBatchPoints [mkPoint point] (Database (state d))
                   (RetentionPolicy (state d)) "n" (WriteConsistency c) in
       calls d = [ClientWrite bp] ∧ answer d = clientWrite world bp)
  ∧ state d
    = setRetentionPolicy (RetentionPolicy (state d))
        (setDatabase (Database (state d)) c).
Proof.
  unfold Insert.
  destruct (parseNextIdentifier stmt) as [i point].
  destruct (EqualFold i "insert"); cbn [negb].
  2: { split; [by left|]. by rewrite CommandLine_eta. }
  destruct (parseNextIdentifier point) as [i2 r].
  destruct (EqualFold i2 "into").
  - pose proof (parseInto_receiver c r) as Hframe.
    assert (WriteConsistency (receiver (parseInto c r)) = WriteConsistency c)
      as Hcons by by rewrite Hframe.
    destruct (clientWrite world _) as [err|] eqn:Hwrite; simpl;
      (split; [right; exists (returned (parseInto c r)); simpl;
               rewrite <- Hcons; by rewrite ?Hwrite|done]).
  - destruct (clientWrite world _) as [err|] eqn:Hwrite; simpl;
      (split; [right; exists point; simpl; by rewrite ?Hwrite
              |by rewrite CommandLine_eta]).
Qed.

(** ** [SetAuth] *)

(** X21: [auth] with a user name and a password on the line.  A line of
    exactly three words of bytes below 128, separated and surrounded by
    any white space, stores the second word as the user name and the third
    as the password, tells the client both, and asks nothing; the first
    word is not looked at. *)
Theorem SetAuth_from_line `{UnicodeStrings} (world : Collaborators)
    (c : CommandLine) (ws0 word : string) (sp1 : ascii) (ws1 user : string)
    (sp2 : ascii) (ws2 password ws3 : string) :
  every asciiSpace ws0 = true →
  asciiSpace sp1 = true → every asciiSpace ws1 = true →
  asciiSpace sp2 = true → every asciiSpace ws2 = true →
  every asciiSpace ws3 = true →
  word ≠ "" → user ≠ "" → password ≠ "" →
  spaceFree word = true → spaceFree user = true → spaceFree password = true →
  isASCII word = true → isASCII user = true → isASCII password = true →
  SetAuth world c
    (ws0 +:+ word +:+ String sp1 ws1 +:+ user +:+ String sp2 ws2
     +:+ password +:+ ws3)
  = mkDone tt (setPassword password (setUsername user c)) ""
      [ClientSetAuth user password].
Proof.
  intros Hws0 Hsp1 Hws1 Hsp2 Hws2 Hws3 Hw Hu Hp Hfw Hfu Hfp Haw Hau Hap.
  unfold SetAuth. rewrite Fields_ascii.
  - rewrite fieldsASCII_spaces by done.
    rewrite (app_cons sp1), fieldsASCII_word by done.
    rewrite fieldsASCII_spaces by done.
    rewrite (app_cons sp2), fieldsASCII_word by done.
    rewrite fieldsASCII_spaces by done.
    destruct (snoc_cases ws3) as [->|(front & last & ->)].
    + rewrite app_empty_r, fieldsASCII_last by done. by destruct c.
    + rewrite every_app in Hws3. apply andb_true_iff in Hws3 as [Hfront Hlast].
      destruct front as [|f front].
      * simpl in Hlast. rewrite andb_true_r in Hlast.
        change ("" +:+ String last "") with (String last "").
        rewrite fieldsASCII_word by done. by destruct c.
      * simpl in Hfront. apply andb_true_iff in Hfront as [Hf Hfront].
        rewrite app_cons, fieldsASCII_word by done.
        rewrite fieldsASCII_all_spaces; [by destruct c|].
        by rewrite every_app, Hfront, Hlast.
  - pose proof (spaces_ASCII _ Hws0) as H0.
    pose proof (spaces_ASCII _ Hws1) as H1.
    pose proof (spaces_ASCII _ Hws2) as H2.
    pose proof (spaces_ASCII _ Hws3) as H3.
    pose proof (asciiSpace_ASCII _ Hsp1) as H4.
    pose proof (asciiSpace_ASCII _ Hsp2) as H5.
    unfold isASCII in *. rewrite !every_app. simpl.
    by rewrite H0, H1, H2, H3, H4, H5, Haw, Hau, Hap.
Qed.

Lemma SetAuth_from_line_witness :
  SetAuth (H := asciiStrings) quietWorld (Sample.shell "column")
    "auth  paul s3cret "
  = mkDone tt (setPassword "s3cret" (setUsername "paul" (Sample.shell "column")))
      "" [ClientSetAuth "paul" "s3cret"].
Proof.
  change "auth  paul s3cret "
    with ("" +:+ "auth" +:+ String " " " " +:+ "paul" +:+ String " " ""
          +:+ "s3cret" +:+ " ").
  apply (SetAuth_from_line (H := asciiStrings) quietWorld
           (Sample.shell "column") "" "auth" " " " " "paul" " " "" "s3cret" " ");
    try reflexivity; discriminate.
Defined.

(** X22: [auth] by prompt.  When the line of bytes below 128 does not have
    exactly three words, the shell asks.  If the user name cannot be read,
    nothing changes.  If it can, it is stored trimmed at once: so when
    the password cannot be read afterwards, the shell is left with the
    new user name and the old password, and the client is not told.  If
    both can be read, the password is stored as typed and the client is
    told both. *)
Theorem SetAuth_by_prompt `{UnicodeStrings} (world : Collaborators)
    (c : CommandLine) (cmd : string) :
  isASCII cmd = true →
  length (fieldsASCII cmd) ≠ 3 →
  let d := SetAuth world c cmd in
  (∀ e, linePrompt world "username: " = inr e →
     d = mkDone tt c ("Unable to process input: " +:+ e) [])
  ∧ (∀ u e, linePrompt world "username: " = inl u →
       linePasswordPrompt world "password: " = inr e →
       d = mkDone tt (setUsername (TrimSpace u) c)
             ("Unable to process input: " +:+ e) [])
  ∧ (∀ u p, linePrompt world "username: " = inl u →
       linePasswordPrompt world "password: " = inl p →
       d = mkDone tt (setPassword p (setUsername (TrimSpace u) c)) ""
             [ClientSetAuth (TrimSpace u) p]).
Proof.
  intros Hascii Hlen d. subst d. unfold SetAuth.
  rewrite (Fields_ascii _ Hascii).
  destruct (fieldsASCII cmd) as [|a [|b [|p0 [|x rest]]]]; try done;
    (split; [|split]); intros; by simplify_option_eq; repeat case_match;
    simplify_eq.
Qed.

Lemma SetAuth_by_prompt_witness :
  SetAuth (H := asciiStrings) quietWorld (Sample.shell "column") "auth"
  = mkDone tt (setPassword "secret" (setUsername "admin" (Sample.shell "column")))
      "" [ClientSetAuth "admin" "secret"].
Proof.
  destruct (SetAuth_by_prompt (H := asciiStrings) quietWorld
              (Sample.shell "column") "auth" eq_refl) as (_ & _ & Hboth).
  - vm_compute. lia.
  - exact (Hboth "admin" "secret" eq_refl eq_refl).
Defined.

(** ** [DatabaseToken] *)

Section TokenFacts.
Context {F : Type}.
Implicit Types (columns before after : list string).

Lemma tokenLoop_skips (series0 : Row F) before : ∀ i columns,
  "token" ∉ before →
  tokenLoop series0 i (before ++ columns)
  = tokenLoop series0 (i + length before) columns.
Proof.
  induction before as [|s before IH]; intros i columns Hnot; simpl.
  - by rewrite Nat.add_0_r.
  - apply not_elem_of_cons in Hnot as [Hs Hnot].
    assert (String.eqb s "token" = false) as ->
      by (apply String.eqb_neq; congruence).
    rewrite IH by done. f_equal. lia.
Qed.
End TokenFacts.

(** X23: reading the token.  When the query succeeds, the response carries
    no error and its first result has a series, the token is the value of
    the first row of the first series under the first column named token,
    provided that value is there and is a string; later rows, later
    series and later results are not looked at. *)
Theorem DatabaseToken_reads_first_row {F : Type}
    (clientQuery : string → Response F + string)
    (responseError : Response F → option string)
    (response : Response F) (result0 : Result F) (results : list (Result F))
    (series0 : Row F) (series : list (Row F))
    (before after : list string) (row0 : list (value F))
    (rows : list (list (value F))) (token : string) :
  clientQuery "SHOW DIAGNOSTICS for 'registration'" = inl response →
  responseError response = None →
  Results response = result0 :: results →
  Series result0 = series0 :: series →
  Columns series0 = before ++ "token" :: after →
  "token" ∉ before →
  Values series0 = row0 :: rows →
  row0 !! length before = Some (VString token) →
  DatabaseToken clientQuery responseError = Returns (token, None).
Proof.
  intros Hquery Herror Hresults Hseries Hcolumns Hfirst Hvalues Hvalue.
  unfold DatabaseToken.
  rewrite Hquery, Herror, Hresults, Hseries, Hcolumns.
  rewrite tokenLoop_skips by done. simpl.
  by rewrite Hvalues, Hvalue.
Qed.

Lemma DatabaseToken_reads_first_row_witness :
  DatabaseToken
    (λ _, inl (mkResponse
                 [mkResult [mkRow "registration" ∅ ["name"; "token"]
                              [[VString "influx"; VString "abc123"]]] None]
                 None))
    (λ _ : Response Empty_set, None)
  = Returns ("abc123", None).
Proof.
  eapply (DatabaseToken_reads_first_row _ _ _ _ [] _ [] ["name"] [] _ []);
    try reflexivity.
  apply not_elem_of_cons. split; [discriminate|apply not_elem_of_nil].
Defined.

(** X24: when there is no token to read.  With a successful query and no
    error in the response: a first series without a column named token
    gives the empty token and no error; a response without any result
    makes the call panic, and so does a column named token when the first
    series has no row. *)
Theorem DatabaseToken_without_token {F : Type}
    (clientQuery : string → Response F + string)
    (responseError : Response F → option string)
    (response : Response F) :
  clientQuery "SHOW DIAGNOSTICS for 'registration'" = inl response →
  responseError response = None →
  (Results response = [] →
     DatabaseToken clientQuery responseError = Panics)
  ∧ (∀ result0 results series0 series,
       Results response = result0 :: results →
       Series result0 = series0 :: series →
       ("token" ∉ Columns series0 →
          DatabaseToken clientQuery responseError = Returns ("", None))
       ∧ ("token" ∈ Columns series0 → Values series0 = [] →
            DatabaseToken clientQuery responseError = Panics)).
Proof.
  intros Hquery Herror. unfold DatabaseToken. rewrite Hquery, Herror.
  split; [by intros ->|].
  intros result0 results series0 series -> ->. split.
  - intros Hnone. rewrite <- (app_nil_r (Columns series0)).
    by rewrite tokenLoop_skips.
  - intros (before & after & -> & Hfirst)%list_elem_of_split_l Hvalues.
    rewrite tokenLoop_skips by done. simpl. by rewrite Hvalues.
Qed.

Lemma DatabaseToken_without_token_witness :
  DatabaseToken (λ _, inl (mkResponse [] None))
    (λ _ : Response Empty_set, None)
  = Panics.
Proof.
  destruct (DatabaseToken_without_token
              (λ _, inl (mkResponse [] None)) (λ _ : Response Empty_set, None)
              (mkResponse [] None) eq_refl eq_refl) as [Hpanic _].
  by apply Hpanic.
Defined.
